(** * manublog: slug allocation and SEO scoring

    A shallow embedding of the two units of the blog platform that carry
    logic of their own:

    - [Posts]: [generateUniqueSlug] and the slug step of [PUT /api/posts/:id]
      (routes/posts.js), on top of the npm package [slugify] (1.6.6, the
      version pinned in package.json), called with
      [{ lower: true, strict: true }];
    - [Seo]: the server-side [analyzeSEO] (routes/seo.js);
    - [SEOAnalyzer]: the client-side [analyzeSEO] of the React component
      of the same name.

    JavaScript strings are modelled by [string]: one [ascii] per UTF-16 code
    unit, which covers the code units below 256.  Numbers that the sources
    keep as doubles are integers here wherever the sources only add and
    compare small integers; the two places that divide are commented where
    they are defined. *)

From Stdlib Require Import Ascii String ZArith Lia Floats.
From stdpp Require Import base option list strings pretty gmap sorting.

Local Open Scope string_scope.

(** ** JavaScript string primitives *)

Module Js.

Definition code (c : ascii) : N := N_of_ascii c.

Definition in_range (lo hi : N) (c : ascii) : bool :=
  ((lo <=? code c) && (code c <=? hi))%N.

Definition is_digit (c : ascii) : bool := in_range 48 57 c.
Definition is_upper (c : ascii) : bool := in_range 65 90 c.
Definition is_lower (c : ascii) : bool := in_range 97 122 c.

(** [[A-Za-z0-9]] *)
Definition is_alnum (c : ascii) : bool :=
  is_digit c || is_upper c || is_lower c.

(** [\w] *)
Definition is_word (c : ascii) : bool :=
  is_alnum c || (code c =? 95)%N.

(** [\s], and the characters removed by [trim]: TAB, LF, VT, FF, CR,
    SPACE and NBSP are the ones below 256. *)
Definition is_space (c : ascii) : bool :=
  in_range 9 13 c || (code c =? 32)%N || (code c =? 160)%N.

(** [toLowerCase] on one code unit: A-Z, and the Latin-1 capitals
    U+00C0-U+00DE except the multiplication sign U+00D7. *)
Definition lower_char (c : ascii) : ascii :=
  if is_upper c || (in_range 192 222 c && negb (code c =? 215)%N)
  then ascii_of_N (code c + 32) else c.

(** The canonical form used by a case-insensitive RegExp without the
    [u] flag ([toUpperCase] when it stays a single code unit of the same
    side of 128). *)
Definition canon_char (c : ascii) : ascii :=
  if is_lower c || (in_range 224 254 c && negb (code c =? 247)%N)
  then ascii_of_N (code c - 32) else c.

Definition eqb_ci (a b : ascii) : bool :=
  Ascii.eqb (canon_char a) (canon_char b).

Fixpoint map_chars (f : ascii -> ascii) (s : string) : string :=
  match s with
  | "" => ""
  | String c r => String (f c) (map_chars f r)
  end.

Fixpoint filter_chars (p : ascii -> bool) (s : string) : string :=
  match s with
  | "" => ""
  | String c r => if p c then String c (filter_chars p r) else filter_chars p r
  end.

Fixpoint all_chars (p : ascii -> bool) (s : string) : bool :=
  match s with
  | "" => true
  | String c r => p c && all_chars p r
  end.

Definition toLowerCase (s : string) : string := map_chars lower_char s.

Definition is_empty (s : string) : bool :=
  match s with "" => true | _ => false end.

Fixpoint trimStart (s : string) : string :=
  match s with
  | "" => ""
  | String c r => if is_space c then trimStart r else s
  end.

Fixpoint trimEnd (s : string) : string :=
  match s with
  | "" => ""
  | String c r =>
      let r' := trimEnd r in
      if is_space c && is_empty r' then "" else String c r'
  end.

Definition trim (s : string) : string := trimEnd (trimStart s).

(** [s.replace(/\s+/g, rep)]: every maximal run of white space becomes
    one [rep]. [in_run] tells that the previous character was white
    space. *)
Fixpoint replace_spaces_go (rep : string) (in_run : bool) (s : string) : string :=
  match s with
  | "" => ""
  | String c r =>
      if is_space c
      then (if in_run then replace_spaces_go rep true r
            else rep +:+ replace_spaces_go rep true r)
      else String c (replace_spaces_go rep false r)
  end.

Definition replace_spaces (rep s : string) : string :=
  replace_spaces_go rep false s.

(** [s.split(/\s+/)]: the pieces between the maximal runs of white
    space; a run at either end leaves an empty piece there, and the empty
    string splits into one empty piece. [cur] is the piece being read,
    reversed. *)
Fixpoint split_spaces_go (cur : string) (in_run : bool) (s : string) : list string :=
  match s with
  | "" => [String.rev cur]
  | String c r =>
      if is_space c
      then (if in_run then split_spaces_go "" true r
            else String.rev cur :: split_spaces_go "" true r)
      else split_spaces_go (String c cur) false r
  end.

Definition split_spaces (s : string) : list string :=
  split_spaces_go "" false s.

(** [hay.includes(needle)] *)
Fixpoint includes (needle hay : string) : bool :=
  String.prefix needle hay ||
  match hay with
  | "" => false
  | String _ r => includes needle r
  end.

(** Truthiness of a value that is a string, [null] or [undefined]. *)
Definition truthy (v : option string) : bool :=
  match v with
  | Some s => negb (is_empty s)
  | None => false
  end.

(** Does [s] contain a [>]? *)
Fixpoint has_gt (s : string) : bool :=
  match s with
  | "" => false
  | String c r => Ascii.eqb c ">" || has_gt r
  end.

(** [s.replace(/<[^>]*>/g, '')]: a [<] opens a span when a [>] follows
    somewhere, and the span ends at the first one. *)
Fixpoint strip_tags_go (in_tag : bool) (s : string) : string :=
  match s with
  | "" => ""
  | String c r =>
      if in_tag
      then (if Ascii.eqb c ">" then strip_tags_go false r
            else strip_tags_go true r)
      else if Ascii.eqb c "<" && has_gt r then strip_tags_go true r
      else String c (strip_tags_go false r)
  end.

Definition strip_tags (s : string) : string := strip_tags_go false s.

(** The prefix of [s] matched by [[^>]*>]: up to and including the
    first [>]. *)
Fixpoint upto_gt (s : string) : option string :=
  match s with
  | "" => None
  | String c r =>
      if Ascii.eqb c ">" then Some (String c "")
      else String c <$> upto_gt r
  end.

(** [s.match(re) || []] for a global [re] whose match at the start of a
    string is computed by [at_start] (never the empty match), which is told
    whether the character before is a word character: the matches from
    left to right, the search resuming after each one. [skip] counts the
    characters of the last match still to be passed. *)
Fixpoint match_all_go (at_start : bool -> string -> option string)
    (prev_word : bool) (skip : nat) (s : string) : list string :=
  match s with
  | "" => []
  | String c r =>
      match skip with
      | S k => match_all_go at_start (is_word c) k r
      | O =>
          match at_start prev_word s with
          | Some m => m :: match_all_go at_start (is_word c) (String.length m - 1) r
          | None => match_all_go at_start (is_word c) 0 r
          end
      end
  end.

Definition match_all (at_start : bool -> string -> option string) (s : string)
    : list string :=
  match_all_go at_start false 0 s.

(** Does [s] start with [w], letter case ignored?  Gives the matched
    prefix and the rest. *)
Fixpoint match_prefix_ci (w s : string) : option (string * string) :=
  match w, s with
  | "", _ => Some ("", s)
  | String a w', String b s' =>
      if eqb_ci a b
      then prod_map (String b) id <$> match_prefix_ci w' s'
      else None
  | String _ _, "" => None
  end.

Definition head_is_word (s : string) : bool :=
  match s with
  | "" => false
  | String c _ => is_word c
  end.

Fixpoint last_is_word (s : string) : bool :=
  match s with
  | "" => false
  | String c r => if is_empty r then is_word c else last_is_word r
  end.

(** [/<name[^>]*>/i] at the start of [s] *)
Definition tag_at (name : string) (s : string) : option string :=
  '(m, rest) ← match_prefix_ci (String "<" name) s;
  body ← upto_gt rest;
  Some (m +:+ body).

(** [/<h[1-6][^>]*>/i] at the start of [s] *)
Definition heading_at (s : string) : option string :=
  '(m, rest) ← match_prefix_ci "<h" s;
  match rest with
  | String d rest' =>
      if in_range 49 54 d
      then body ← upto_gt rest'; Some (m +:+ String d body)
      else None
  | "" => None
  end.

(** The characters with a meaning of their own in a pattern:
    [\ ^ $ . | ? * + ( ) [ ] { }], by code. *)
Definition is_meta (c : ascii) : bool :=
  existsb (N.eqb (code c)) [92; 94; 36; 46; 124; 63; 42; 43; 40; 41; 91; 93; 123; 125]%N.

(** [\bword\b], letter case ignored, at the start of [s], for a [word]
    without metacharacters: the word itself, with a word character on
    exactly one side of each end. *)
Definition word_at (word : string) (prev_word : bool) (s : string) : option string :=
  '(m, rest) ← match_prefix_ci word s;
  if xorb prev_word (head_is_word s) && xorb (last_is_word m) (head_is_word rest)
  then Some m else None.

(** The last character of [s] is not white space. *)
Fixpoint ends_nonspace (s : string) : bool :=
  match s with
  | "" => false
  | String c r => if is_empty r then negb (is_space c) else ends_nonspace r
  end.

(** [s.repeat(n)] *)
Fixpoint repeat (s : string) (n : nat) : string :=
  match n with
  | O => ""
  | S k => s +:+ repeat s k
  end.

(** *** Numbers

    A number of the language is a binary64 double.  The ones computed
    here are not negative, and they are kept as the pair [(m, e)] of
    their value [m * 2^e], with [m] at most [2^53].  The operands are
    lengths of strings and arrays, below [2^53], so that no result
    leaves the range of the normal doubles ([e] is not bounded here) and
    [toFixed] never switches to the exponent notation. *)

(** [2^k], and 1 for a negative [k]. *)
Definition pow2 (k : Z) : Z := (2 ^ Z.max 0 k)%Z.

(** The integer nearest to [n / d], the even one of two. *)
Definition round_even (n d : Z) : Z :=
  let q := (n / d)%Z in
  let r := (n mod d)%Z in
  if (2 * r <? d)%Z then q
  else if (d <? 2 * r)%Z then (q + 1)%Z
  else if Z.even q then q else (q + 1)%Z.

(** The double nearest to the quotient [n / d] of two positive integers:
    [e] is chosen so that [n / (d * 2^e)] lies between [2^52] and [2^53],
    and [m] is that number rounded to the nearest integer, ties to
    even. *)
Definition nearest (n d : Z) : Z * Z :=
  if (n =? 0)%Z then (0, 0)%Z
  else
    let l := (Z.log2 n - Z.log2 d)%Z in
    let e := if (n * pow2 (- l) <? d * pow2 l)%Z then (l - 53)%Z else (l - 52)%Z in
    (round_even (n * pow2 (- e)) (d * pow2 e), e).

(** The number of a length. *)
Definition of_length (n : Z) : Z * Z := nearest n 1.

(** [a / b] for a positive [b] *)
Definition div (a b : Z * Z) : Z * Z :=
  nearest (a.1 * pow2 (a.2 - b.2)) (b.1 * pow2 (b.2 - a.2)).

(** [a * b] *)
Definition mul (a b : Z * Z) : Z * Z :=
  nearest (a.1 * b.1 * pow2 (a.2 + b.2)) (pow2 (- (a.2 + b.2))).

(** The integer [n] of [x.toFixed(2)]: the one for which [n / 100] is
    nearest to the exact value of [x], the larger of two. *)
Definition hundredths (x : Z * Z) : Z :=
  ((2 * (x.1 * 100 * pow2 x.2) + pow2 (- x.2)) / (2 * pow2 (- x.2)))%Z.

(** [(a / b) * 100] for two lengths, on the pairs. *)
Definition percent (a b : Z) : Z * Z :=
  mul (div (of_length a) (of_length b)) (of_length 100).

(** The same with the binary64 numbers of the library, for lengths below
    [2^63]. *)
Definition float_of_length (n : Z) : float :=
  PrimFloat.of_uint63 (Uint63.of_Z n).

Definition percent_float (a b : Z) : float :=
  PrimFloat.mul (PrimFloat.div (float_of_length a) (float_of_length b))
    (float_of_length 100).

(** Is the pair [x] the value of the float [f]? *)
Definition same_number (x : Z * Z) (f : float) : bool :=
  match Prim2SF f with
  | S754_zero false => (x.1 =? 0)%Z
  | S754_finite false m e => (Z.pos m * pow2 (e - x.2) =? x.1 * pow2 (x.2 - e))%Z
  | _ => false
  end.

End Js.

(** ** The [slugify] package *)

Module Slugify.
Import Js.

(** Modelled from the spec: the npm package [slugify] (package.json pins
    ^1.6.6) is a dependency and not among the sources.  The spec's
    normalisation (lowercase; transliterate or strip what is outside
    [[a-z0-9]]; collapse runs into one hyphen; trim the ends) is laid
    out here in the order and with the character classes of the
    package's [replace] function, for the options the routes pass,
    [{ lower: true, strict: true }].

    [charMap] is the package's transliteration table, restricted to the
    code units below 256; the keys are given by code. *)
Definition charMap (ch : ascii) : option string :=
  let n := code ch in
  if (n =? 36)%N then Some "dollar"
  else if (n =? 37)%N then Some "percent"
  else if (n =? 38)%N then Some "and"
  else if (n =? 60)%N then Some "less"
  else if (n =? 62)%N then Some "greater"
  else if (n =? 124)%N then Some "or"
  else if (n =? 162)%N then Some "cent"
  else if (n =? 163)%N then Some "pound"
  else if (n =? 164)%N then Some "currency"
  else if (n =? 165)%N then Some "yen"
  else if (n =? 169)%N then Some "(c)"
  else if (n =? 170)%N then Some "a"
  else if (n =? 174)%N then Some "(r)"
  else if (n =? 186)%N then Some "o"
  else if in_range 192 197 ch then Some "A"
  else if (n =? 198)%N then Some "AE"
  else if (n =? 199)%N then Some "C"
  else if in_range 200 203 ch then Some "E"
  else if in_range 204 207 ch then Some "I"
  else if (n =? 208)%N then Some "D"
  else if (n =? 209)%N then Some "N"
  else if in_range 210 214 ch || (n =? 216)%N then Some "O"
  else if in_range 217 220 ch then Some "U"
  else if (n =? 221)%N then Some "Y"
  else if (n =? 222)%N then Some "TH"
  else if (n =? 223)%N then Some "ss"
  else if in_range 224 229 ch then Some "a"
  else if (n =? 230)%N then Some "ae"
  else if (n =? 231)%N then Some "c"
  else if in_range 232 235 ch then Some "e"
  else if in_range 236 239 ch then Some "i"
  else if (n =? 240)%N then Some "d"
  else if (n =? 241)%N then Some "n"
  else if in_range 242 246 ch || (n =? 248)%N then Some "o"
  else if in_range 249 252 ch then Some "u"
  else if (n =? 253)%N || (n =? 255)%N then Some "y"
  else if (n =? 254)%N then Some "th"
  else None.

(** The characters that the package's default [remove] pattern leaves in
    place: those of [\w] and [\s], and fourteen marks, listed by code:
    dollar, star, underscore, plus, tilde, dot, both parentheses, both
    quotes, exclamation mark, hyphen, colon and at sign. *)
Definition kept_by_remove (c : ascii) : bool :=
  is_word c || is_space c ||
  existsb (N.eqb (code c)) [36; 42; 95; 43; 126; 46; 40; 41; 39; 34; 33; 45; 58; 64]%N.

(** [/[^A-Za-z0-9\s]/g] removes everything else under [strict]. *)
Definition kept_by_strict (c : ascii) : bool := is_alnum c || is_space c.

(** The body of the package's [reduce]: what one character contributes. *)
Definition appendChar (ch : ascii) : string :=
  let a := default (String ch "") (charMap ch) in
  let a := if String.eqb a "-" then " " else a in
  filter_chars kept_by_remove a.

(** Modelled from the spec: [slugify(title, { lower: true, strict: true })]
    of the package that is not among the sources.  The steps are the
    package's: map and filter each character, drop what [strict] forbids,
    trim, turn each run of white space into one hyphen, lowercase. *)
Definition slugify (title : string) : string :=
  let slug :=
    fold_left (fun result ch => result +:+ appendChar ch)
              (list_ascii_of_string title) "" in
  let slug := filter_chars kept_by_strict slug in
  let slug := trim slug in
  let slug := replace_spaces "-" slug in
  toLowerCase slug.

(** [^[a-z0-9]+(-[a-z0-9]+)*$], as the automaton of the expression:
    [after_alnum] tells that the previous character was one of
    [[a-z0-9]]. *)
Definition is_slug_char (c : ascii) : bool := is_digit c || is_lower c.

Fixpoint slug_shape_go (after_alnum : bool) (s : string) : bool :=
  match s with
  | "" => after_alnum
  | String c r =>
      if is_slug_char c then slug_shape_go true r
      else if Ascii.eqb c "-" then after_alnum && slug_shape_go false r
      else false
  end.

Definition slug_shape (s : string) : bool := slug_shape_go false s.

End Slugify.

(** ** routes/posts.js *)

Module Posts.
Import Js Slugify.

Inductive Role := ADMIN | EDITOR | AUTHOR.

#[global] Instance Role_eq_dec : EqDecision Role.
Proof. solve_decision. Defined.

Inductive PostStatus := DRAFT | PUBLISHED | SCHEDULED | PRIVATE | TRASH.

(** The columns of [model Post] that the slug logic and the validation
    touch; dates, images, social cards, counters and tag links are left
    out. *)
Record Post := {
  post_id : string;
  post_title : string;
  post_slug : string;
  post_content : string;
  post_excerpt : option string;
  post_status : PostStatus;
  post_authorId : string;
  post_metaTitle : option string;
  post_metaDescription : option string
}.

(** The calls made on the [prisma.post] delegate. *)
Inductive Query :=
| FindPostById (id : string)
| FindPostBySlug (slug : string)
| UpdatePost (id : string).

(** The posts table and the log of the calls issued so far, oldest
    first. *)
Record Db := {
  posts : list Post;
  queries : list Query
}.

Definition logged (q : Query) (db : Db) : Db :=
  {| posts := posts db; queries := queries db ++ [q] |}.

Definition slug_is (s : string) (p : Post) : bool := String.eqb (post_slug p) s.
Definition id_is (i : string) (p : Post) : bool := String.eqb (post_id p) i.

(** [prisma.post.findUnique({ where: { slug } })] *)
Definition findUniqueBySlug (slug : string) (db : Db) : option Post * Db :=
  (find (slug_is slug) (posts db), logged (FindPostBySlug slug) db).

(** [prisma.post.findUnique({ where: { id } })] *)
Definition findUniqueById (id : string) (db : Db) : option Post * Db :=
  (find (id_is id) (posts db), logged (FindPostById id) db).

(** [!existingPost || (postId && existingPost.id === postId)] *)
Definition slug_available (existingPost : option Post) (postId : option string) : bool :=
  match existingPost with
  | None => true
  | Some p => truthy postId && bool_decide (Some (post_id p) = postId)
  end.

(** The [while (true)] loop of [generateUniqueSlug] on its two variables,
    unrolled at most [fuel] times; it gives both variables back. *)
Fixpoint probe (fuel : nat) (postId : option string) (baseSlug slug : string)
    (counter : nat) (db : Db) : option (string * nat) * Db :=
  match fuel with
  | O => (None, db)
  | S fuel' =>
      let '(existingPost, db) := findUniqueBySlug slug db in
      if slug_available existingPost postId then (Some (slug, counter), db)
      else probe fuel' postId baseSlug
                 (baseSlug +:+ "-" +:+ pretty counter) (S counter) db
  end.

(** One more round than there are posts is enough for the loop to stop
    (see [probe_enough_fuel] below), so [None] does not occur. *)
Definition generateUniqueSlug (title : string) (postId : option string) (db : Db)
    : option string * Db :=
  let baseSlug := slugify title in
  let '(r, db) := probe (S (length (posts db))) postId baseSlug baseSlug 1 db in
  (fst <$> r, db).

(** The [k]-th candidate of the loop. *)
Definition candidate (baseSlug : string) (k : nat) : string :=
  match k with
  | O => baseSlug
  | S _ => baseSlug +:+ "-" +:+ pretty k
  end.

Record User := {
  user_id : string;
  user_role : Role
}.

(** The fields of the request body that reach the modelled columns. *)
Record PostBody := {
  body_title : string;
  body_content : string;
  body_excerpt : option string;
  body_status : option PostStatus;
  body_metaTitle : option string;
  body_metaDescription : option string
}.

Definition opt_length_le (n : nat) (v : option string) : bool :=
  match v with
  | Some s => (String.length s <=? n)%nat
  | None => true
  end.

(** [postValidation] *)
Definition postValidation (b : PostBody) : bool :=
  (1 <=? String.length (body_title b))%nat
  && (String.length (body_title b) <=? 200)%nat
  && (1 <=? String.length (body_content b))%nat
  && opt_length_le 500 (body_excerpt b)
  && match body_status b with Some TRASH => false | _ => true end
  && opt_length_le 60 (body_metaTitle b)
  && opt_length_le 160 (body_metaDescription b).

Inductive Response :=
| Updated (post : Post)
| ValidationFailed
| PostNotFound
| InsufficientPermissions
| UpdatePostError.

(** A field of [data] that the body leaves out is [undefined], and the
    column keeps its value. *)
Definition set_field {A} (v : option A) (old : option A) : option A :=
  match v with
  | Some x => Some x
  | None => old
  end.

(** The row after [data] is written: [id] and [authorId] are not in
    [data]. *)
Definition set_fields (b : PostBody) (slug : string) (p : Post) : Post :=
  {| post_id := post_id p;
     post_title := body_title b;
     post_slug := slug;
     post_content := body_content b;
     post_excerpt := set_field (body_excerpt b) (post_excerpt p);
     post_status := default (post_status p) (body_status b);
     post_authorId := post_authorId p;
     post_metaTitle := set_field (body_metaTitle b) (post_metaTitle p);
     post_metaDescription := set_field (body_metaDescription b) (post_metaDescription p) |}.

(** [prisma.post.update({ where: { id }, data })].  The unique index on
    [slug] rejects a slug held by another row.  The table can reject
    [data] for a column that is not modelled as well (the foreign key of
    [categoryId], the date of [scheduledAt]); [accepted] is its verdict
    on those columns. *)
Definition update_checked (accepted : bool) (id : string) (b : PostBody)
    (slug : string) (db : Db) : option Post * Db :=
  let db := logged (UpdatePost id) db in
  if negb accepted
     || existsb (fun p => slug_is slug p && negb (id_is id p)) (posts db)
  then (None, db)
  else
    let rows := map (fun p => if id_is id p then set_fields b slug p else p) (posts db) in
    (find (id_is id) rows, {| posts := rows; queries := queries db |}).

(** The update on a table that accepts the other columns. *)
Definition update : string -> PostBody -> string -> Db -> option Post * Db :=
  update_checked true.

(** The handler of [PUT /api/posts/:id] up to the update of the row. *)
Definition put_post_checked (accepted : bool) (user : User) (id : string)
    (b : PostBody) (db : Db) : Response * Db :=
  if negb (postValidation b) then (ValidationFailed, db)
  else
    let '(existingPost, db) := findUniqueById id db in
    match existingPost with
    | None => (PostNotFound, db)
    | Some existingPost =>
        if negb (bool_decide (user_role user = ADMIN))
           && negb (String.eqb (post_authorId existingPost) (user_id user))
        then (InsufficientPermissions, db)
        else
          let '(slug, db) :=
            if negb (String.eqb (body_title b) (post_title existingPost))
            then generateUniqueSlug (body_title b) (Some id) db
            else (Some (post_slug existingPost), db) in
          match slug with
          | None => (UpdatePostError, db)
          | Some slug =>
              match update_checked accepted id b slug db with
              | (Some post, db) => (Updated post, db)
              | (None, db) => (UpdatePostError, db)
              end
          end
    end.

(** The handler on a table that accepts the other columns. *)
Definition put_post : User -> string -> PostBody -> Db -> Response * Db :=
  put_post_checked true.

(** A row that stands in the way of the loop: it holds one of the
    candidates and is not the excluded one. *)
Definition collides (baseSlug : string) (postId : option string) (p : Post) : Prop :=
  (exists k, post_slug p = candidate baseSlug k)
  /\ slug_available (Some p) postId = false.

(** What the schema grants on the table: [id] is the primary key, filled
    by [cuid()] and so never empty, and [slug] carries a unique index. *)
Definition schema_ok (db : Db) : Prop :=
  NoDup (map post_id (posts db))
  /\ NoDup (map post_slug (posts db))
  /\ Forall (fun p => post_id p <> "") (posts db).

(** The calls that start with the first call of a run on [db]. *)
Definition issued (db db' : Db) : list Query :=
  drop (length (queries db)) (queries db').

Definition is_slug_probe (q : Query) : bool :=
  match q with
  | FindPostBySlug _ => true
  | _ => false
  end.

End Posts.

(** ** routes/seo.js *)

Module Seo.
Import Js.

Inductive Status := Success | Warning | Error | Info.

Inductive Overall := Excellent | Good | NeedsImprovement | Poor.

Record Check := {
  check_status : Status;
  check_message : string
}.

Record Density := {
  count : nat;
  density : string
}.

(** The [analysis] object. [checks] keeps the order in which the keys are
    set (each key is set at most once); [keywordDensity] and [status] are
    absent until they are assigned. *)
Record Analysis := {
  score : nat;
  issues : list string;
  suggestions : list string;
  checks : list (string * Check);
  keywordDensity : option (gmap string Density);
  status : option Overall
}.

Definition add_score (n : nat) (a : Analysis) : Analysis :=
  {| score := score a + n; issues := issues a; suggestions := suggestions a;
     checks := checks a; keywordDensity := keywordDensity a; status := status a |}.

Definition push_issue (s : string) (a : Analysis) : Analysis :=
  {| score := score a; issues := issues a ++ [s]; suggestions := suggestions a;
     checks := checks a; keywordDensity := keywordDensity a; status := status a |}.

Definition push_suggestion (s : string) (a : Analysis) : Analysis :=
  {| score := score a; issues := issues a; suggestions := suggestions a ++ [s];
     checks := checks a; keywordDensity := keywordDensity a; status := status a |}.

Definition set_check (key : string) (st : Status) (msg : string) (a : Analysis) : Analysis :=
  {| score := score a; issues := issues a; suggestions := suggestions a;
     checks := checks a ++ [(key, {| check_status := st; check_message := msg |})];
     keywordDensity := keywordDensity a; status := status a |}.

Definition set_keywordDensity (kd : gmap string Density) (a : Analysis) : Analysis :=
  {| score := score a; issues := issues a; suggestions := suggestions a;
     checks := checks a; keywordDensity := Some kd; status := status a |}.

Definition initial : Analysis :=
  {| score := 0; issues := []; suggestions := []; checks := [];
     keywordDensity := None; status := None |}.

Definition len (v : option string) : nat := String.length (default "" v).

(** Title analysis *)
Definition analyzeTitle (title : option string) (a : Analysis) : Analysis :=
  if negb (truthy title) then
    set_check "title" Error "Title is required"
      (push_issue "Title is missing" a)
  else if (len title <? 30)%nat then
    set_check "title" Warning
      ("Title is " +:+ pretty (len title) +:+ " characters (recommended: 30-60)")
      (push_issue "Title is too short (recommended: 30-60 characters)" a)
  else if (60 <? len title)%nat then
    set_check "title" Warning
      ("Title is " +:+ pretty (len title) +:+ " characters (recommended: 30-60)")
      (push_issue "Title is too long (recommended: 30-60 characters)" a)
  else
    set_check "title" Success
      ("Title length is optimal (" +:+ pretty (len title) +:+ " characters)")
      (add_score 20 a).

(** Meta description analysis *)
Definition analyzeMetaDescription (metaDescription : option string) (a : Analysis)
    : Analysis :=
  if negb (truthy metaDescription) then
    set_check "metaDescription" Error "Meta description is required for SEO"
      (push_issue "Meta description is missing" a)
  else if (len metaDescription <? 120)%nat then
    set_check "metaDescription" Warning
      ("Meta description is " +:+ pretty (len metaDescription)
         +:+ " characters (recommended: 120-160)")
      (push_issue "Meta description is too short (recommended: 120-160 characters)" a)
  else if (160 <? len metaDescription)%nat then
    set_check "metaDescription" Warning
      ("Meta description is " +:+ pretty (len metaDescription)
         +:+ " characters (recommended: 120-160)")
      (push_issue "Meta description is too long (recommended: 120-160 characters)" a)
  else
    set_check "metaDescription" Success
      ("Meta description length is optimal (" +:+ pretty (len metaDescription)
         +:+ " characters)")
      (add_score 20 a).

(** [/^[a-z0-9-]+$/.test(slug)] *)
Definition slug_charset (slug : string) : bool :=
  negb (is_empty slug)
  && all_chars (fun c => is_lower c || is_digit c || Ascii.eqb c "-") slug.

(** Slug analysis *)
Definition analyzeSlug (slug : option string) (a : Analysis) : Analysis :=
  if negb (truthy slug) then
    set_check "slug" Error "URL slug is required"
      (push_issue "URL slug is missing" a)
  else if (75 <? len slug)%nat then
    set_check "slug" Warning
      ("URL slug is " +:+ pretty (len slug) +:+ " characters (recommended: under 75)")
      (push_issue "URL slug is too long (recommended: under 75 characters)" a)
  else if negb (slug_charset (default "" slug)) then
    set_check "slug" Warning "URL slug should be lowercase with hyphens"
      (push_issue "URL slug should only contain lowercase letters, numbers, and hyphens" a)
  else
    set_check "slug" Success "URL slug is SEO-friendly" (add_score 15 a).

(** [content.split(/\s+/).length] *)
Definition wordCount (content : string) : nat := length (split_spaces content).

Definition headingMatches (content : string) : list string :=
  match_all (fun _ => heading_at) content.

Definition imageMatches (content : string) : list string :=
  match_all (fun _ => tag_at "img") content.

Definition linkMatches (content : string) : list string :=
  match_all (fun _ => tag_at "a") content.

(** The filter of [imagesWithoutAlt]: the tag has no [alt=], or it has
    [alt=] followed by two double quotes. *)
Definition withoutAlt (img : string) : bool :=
  negb (includes "alt=" img)
  || includes ("alt=" +:+ String "034" (String "034" "")) img.

Definition checkWordCount (content : string) (a : Analysis) : Analysis :=
  if (wordCount content <? 300)%nat then
    set_check "wordCount" Warning
      ("Content has " +:+ pretty (wordCount content) +:+ " words (recommended: 300+)")
      (push_issue "Content is too short (recommended: 300+ words for SEO)" a)
  else
    set_check "wordCount" Success
      ("Content has " +:+ pretty (wordCount content) +:+ " words")
      (add_score 15 a).

Definition checkHeadings (content : string) (a : Analysis) : Analysis :=
  if (length (headingMatches content) =? 0)%nat then
    set_check "headings" Warning "No headings found in content"
      (push_suggestion "Add headings (H1, H2, H3) to improve content structure" a)
  else
    set_check "headings" Success
      ("Found " +:+ pretty (length (headingMatches content)) +:+ " headings")
      (add_score 10 a).

Definition checkImages (content : string) (a : Analysis) : Analysis :=
  let imgs := imageMatches content in
  if (0 <? length imgs)%nat then
    let imagesWithoutAlt := List.filter withoutAlt imgs in
    if (0 <? length imagesWithoutAlt)%nat then
      set_check "images" Warning
        (pretty (length imagesWithoutAlt) +:+ " of " +:+ pretty (length imgs)
           +:+ " images missing alt text")
        (push_issue (pretty (length imagesWithoutAlt) +:+ " images missing alt text") a)
    else
      set_check "images" Success
        ("All " +:+ pretty (length imgs) +:+ " images have alt text")
        (add_score 10 a)
  else a.

Definition checkLinks (content : string) (a : Analysis) : Analysis :=
  if (length (linkMatches content) =? 0)%nat then
    set_check "links" Info "No links found in content"
      (push_suggestion "Add internal links to improve SEO and user experience" a)
  else
    set_check "links" Success
      ("Found " +:+ pretty (length (linkMatches content)) +:+ " links")
      (add_score 5 a).

(** Content analysis *)
Definition analyzeContent (content : option string) (a : Analysis) : Analysis :=
  if negb (truthy content) then
    set_check "content" Error "Content is required"
      (push_issue "Content is missing" a)
  else
    let c := default "" content in
    checkLinks c (checkImages c (checkHeadings c (checkWordCount c a))).

(** The four analyses, in the order of the source. *)
Definition analyzeChecks (content title metaDescription slug : option string)
    : Analysis :=
  analyzeContent content
    (analyzeSlug slug
       (analyzeMetaDescription metaDescription
          (analyzeTitle title initial))).

Definition two_digits (n : N) : string :=
  if (n <? 10)%N then "0" +:+ pretty n else pretty n.

(** [((matches / total) * 100).toFixed(2)], with the division and the
    multiplication of doubles: the quotient is rounded, the product is
    rounded, and [toFixed] rounds the exact value of that double to
    hundredths.  Over [total = 0] the quotient is [NaN] or [Infinity],
    and so is the product. *)
Definition density_toFixed2 (matches total : nat) : string :=
  if (total =? 0)%nat then (if (matches =? 0)%nat then "NaN" else "Infinity")
  else
    let h := Z.to_N (hundredths (percent (Z.of_nat matches) (Z.of_nat total))) in
    pretty (h / 100)%N +:+ "." +:+ two_digits (h mod 100)%N.

Section keyword_density.

(** [(contentLower.match(new RegExp(`\\b${word}\\b`, 'gi')) || []).length],
    or [None] when the constructor rejects the pattern. *)
Variable countMatches : string -> string -> option nat.

(** The body of [titleWords.forEach], on the object being filled. *)
Definition densityOfWord (content : string) (kd : option (gmap string Density))
    (word : string) : option (gmap string Density) :=
  kd ← kd;
  if (3 <? String.length word)%nat then
    matches ← countMatches word (toLowerCase content);
    Some (<[word := {| count := matches;
                       density := density_toFixed2 matches (wordCount content) |}]> kd)
  else Some kd.

(** Keyword density analysis; [None] when a pattern is rejected. *)
Definition analyzeKeywords (content title : option string) (a : Analysis)
    : option Analysis :=
  if truthy title && truthy content then
    let titleWords := split_spaces (toLowerCase (default "" title)) in
    kd ← fold_left (densityOfWord (default "" content)) titleWords (Some ∅);
    Some (set_keywordDensity kd a)
  else Some a.

Definition overall (score : nat) : Overall :=
  if (80 <=? score)%nat then Excellent
  else if (60 <=? score)%nat then Good
  else if (40 <=? score)%nat then NeedsImprovement
  else Poor.

(** Final score and overall status *)
Definition finish (a : Analysis) : Analysis :=
  let s := Nat.min 100 (score a) in
  {| score := s; issues := issues a; suggestions := suggestions a;
     checks := checks a; keywordDensity := keywordDensity a;
     status := Some (overall s) |}.

(** [analyzeSEO]; [None] stands for the exception of a rejected pattern. *)
Definition analyzeSEO_with (content title metaDescription slug : option string)
    : option Analysis :=
  finish <$> analyzeKeywords content title
               (analyzeChecks content title metaDescription slug).

End keyword_density.

(** The count for a title word without a character of the pattern
    syntax: between the two [\b] the word stands for itself, letter case
    ignored.  A word with such a character is a pattern of its own (a
    group, a class, a quantifier, or one that the constructor rejects);
    those patterns are not read here and [None] is given for all of
    them, so that [countWord] is what the source computes for the titles
    whose words are free of these characters, and for those only.  The
    properties of every title are stated for [analyzeSEO_with] and any
    [countMatches]. *)
Definition countWord (word hay : string) : option nat :=
  if all_chars (fun c => negb (is_meta c)) word
  then Some (length (match_all (word_at word) hay))
  else None.

(** [analyzeSEO] for a title whose words are free of the characters of
    the pattern syntax. *)
Definition analyzeSEO (content title metaDescription slug : option string)
    : option Analysis :=
  analyzeSEO_with countWord content title metaDescription slug.

(** The spec counts points per check; the source adds them to [score]
    as it goes and keeps only the status under each key.  [weight] is the
    amount added together with a successful status under that key, and
    [pointsAwarded] the sum over the checks of an analysis. *)
Definition weight (key : string) : nat :=
  if String.eqb key "title" then 20
  else if String.eqb key "metaDescription" then 20
  else if String.eqb key "slug" then 15
  else if String.eqb key "wordCount" then 15
  else if String.eqb key "headings" then 10
  else if String.eqb key "images" then 10
  else if String.eqb key "links" then 5
  else 0.

Definition awarded (kc : string * Check) : nat :=
  match check_status kc.2 with
  | Success => weight kc.1
  | _ => 0
  end.

Definition pointsAwarded (cs : list (string * Check)) : nat :=
  foldr (fun kc acc => awarded kc + acc) 0 cs.

(** A step from [a] to [a'] adds [n] points to the score, and the checks
    it records account for the same [n]. *)
Definition adds (n : nat) (a a' : Analysis) : Prop :=
  score a' = score a + n
  /\ pointsAwarded (checks a') = pointsAwarded (checks a) + n.

(** [analysis.checks[key]] *)
Definition check_of (key : string) (a : Analysis) : option Check :=
  snd <$> find (fun kc => String.eqb kc.1 key) (checks a).

End Seo.

(** ** The [SEOAnalyzer] component *)

Module SEOAnalyzer.
Import Js.

Inductive Status := Success | Warning | Error | Info.

(** [interface SEOCheck] *)
Record SEOCheck := {
  check_id : string;
  check_name : string;
  check_status : Status;
  check_message : string;
  check_score : nat
}.

(** What one run of [analyzeSEO] stores with [setWordCount],
    [setReadingTime], [setSeoScore] and [setChecks].  The keyword table of
    [calculateKeywordDensity] is not part of the model. *)
Record Result := {
  wordCount : nat;
  readingTime : nat;
  seoScore : nat;
  checks : list SEOCheck
}.

(** [checks.push(c); totalScore += c.score] on the pair of the two
    variables. *)
Definition push (c : SEOCheck) (st : list SEOCheck * nat) : list SEOCheck * nat :=
  ((st.1 ++ [c])%list, st.2 + check_score c).

Definition mk (id name : string) (s : Status) (msg : string) (pts : nat) : SEOCheck :=
  {| check_id := id; check_name := name; check_status := s;
     check_message := msg; check_score := pts |}.

(** [content.replace(/<[^>]*>/g, '').split(/\s+/).filter(w => w.length > 0)] *)
Definition words (content : string) : list string :=
  List.filter (fun w => negb (is_empty w)) (split_spaces (strip_tags content)).

Definition titleChecks (title : string) : SEOCheck :=
  let n := String.length title in
  if (n =? 0)%nat then
    mk "title-missing" "Title Missing" Error "Post title is required for SEO" 0
  else if (n <? 30)%nat then
    mk "title-short" "Title Too Short" Warning
      ("Title is " +:+ pretty n +:+ " characters. Aim for 50-60 characters.") 5
  else if (60 <? n)%nat then
    mk "title-long" "Title Too Long" Warning
      ("Title is " +:+ pretty n +:+ " characters. Keep it under 60 characters.") 5
  else
    mk "title-good" "Title Length" Success
      ("Title length (" +:+ pretty n +:+ " chars) is optimal for SEO.") 10.

Definition metaChecks (metaDescription : string) : SEOCheck :=
  let n := String.length metaDescription in
  if (n =? 0)%nat then
    mk "meta-missing" "Meta Description Missing" Error
      "Meta description is crucial for search results" 0
  else if (n <? 120)%nat then
    mk "meta-short" "Meta Description Too Short" Warning
      ("Meta description is " +:+ pretty n
         +:+ " characters. Aim for 150-160 characters.") 5
  else if (160 <? n)%nat then
    mk "meta-long" "Meta Description Too Long" Warning
      ("Meta description is " +:+ pretty n
         +:+ " characters. Keep it under 160 characters.") 5
  else
    mk "meta-good" "Meta Description Length" Success
      ("Meta description length (" +:+ pretty n +:+ " chars) is optimal.") 10.

Definition contentChecks (wordCount : nat) : SEOCheck :=
  if (wordCount <? 300)%nat then
    mk "content-short" "Content Too Short" Warning
      ("Content has " +:+ pretty wordCount
         +:+ " words. Aim for at least 300 words for better SEO.") 5
  else
    mk "content-good" "Content Length" Success
      ("Content length (" +:+ pretty wordCount +:+ " words) is good for SEO.") 10.

Definition slugChecks (slug : string) : SEOCheck :=
  let n := String.length slug in
  if (n =? 0)%nat then
    mk "slug-missing" "URL Slug Missing" Error
      "URL slug is required for SEO-friendly URLs" 0
  else if (60 <? n)%nat then
    mk "slug-long" "URL Slug Too Long" Warning
      "Keep URL slug under 60 characters for better readability" 5
  else
    mk "slug-good" "URL Slug" Success "URL slug is SEO-friendly" 10.

Definition imageCheck (featuredImage : string) : SEOCheck :=
  if negb (is_empty featuredImage) then
    mk "image-present" "Featured Image" Success
      "Featured image helps with social sharing and engagement" 10
  else
    mk "image-missing" "Featured Image Missing" Warning
      "Consider adding a featured image for better social sharing" 5.

Definition tagsCheck (tags : list string) : SEOCheck :=
  let n := length tags in
  if (n =? 0)%nat then
    mk "tags-missing" "No Tags" Warning
      "Add relevant tags to improve content discoverability" 5
  else if (10 <? n)%nat then
    mk "tags-many" "Too Many Tags" Warning
      "Consider using fewer, more relevant tags (5-8 is optimal)" 7
  else
    mk "tags-good" "Tags" Success
      ("Good number of tags (" +:+ pretty n +:+ ") for categorization") 10.

Definition headingsCheck (content : string) : SEOCheck :=
  let headingMatches := match_all (fun _ => heading_at) content in
  if (length headingMatches =? 0)%nat then
    mk "headings-missing" "No Headings" Warning
      "Use headings (H1, H2, H3) to structure your content" 5
  else
    mk "headings-present" "Content Structure" Success
      ("Good use of headings (" +:+ pretty (length headingMatches) +:+ " found)") 10.

(** [Math.round((totalScore / maxScore) * 100)].  The quotient is exact
    here.  In the source [totalScore] is a whole number and [maxScore] is
    70, so the exact value is a multiple of 1/7, never within rounding
    error of a half, and the double rounds to the same integer. *)
Definition round_percent (totalScore maxScore : nat) : nat :=
  (200 * totalScore + maxScore) / (2 * maxScore).

Definition analyzeSEO (title content metaDescription slug featuredImage : string)
    (tags : list string) : Result :=
  let wordCount := length (words content) in
  let readingTime := (wordCount + 199) / 200 in
  let st := ([], 0) in
  let st := push (titleChecks title) st in
  let st := push (metaChecks metaDescription) st in
  let st := push (contentChecks wordCount) st in
  let st := push (slugChecks slug) st in
  let st := push (imageCheck featuredImage) st in
  let st := push (tagsCheck tags) st in
  let st := push (headingsCheck content) st in
  let '(checks, totalScore) := st in
  let maxScore := length checks * 10 in
  let finalScore := round_percent totalScore maxScore in
  {| wordCount := wordCount; readingTime := readingTime;
     seoScore := finalScore; checks := checks |}.

(** The sum of [score] over a list of checks. *)
Definition pointsAwarded (cs : list SEOCheck) : nat :=
  foldr (fun c acc => check_score c + acc) 0 cs.

End SEOAnalyzer.

(** ** Texts of words *)

Module Words.
Import Js.








End Words.

(** ** Sample data *)

Module Samples.
Import Js.

Definition row (id title slug : string) : Posts.Post :=
  {| Posts.post_id := id; Posts.post_title := title; Posts.post_slug := slug;
     Posts.post_content := "<p>Body</p>"; Posts.post_excerpt := None;
     Posts.post_status := Posts.DRAFT; Posts.post_authorId := "u1";
     Posts.post_metaTitle := None; Posts.post_metaDescription := None |}.

Definition table (rows : list Posts.Post) : Posts.Db :=
  {| Posts.posts := rows; Posts.queries := [] |}.

Definition foo_rows : list Posts.Post :=
  [row "p1" "Foo" "foo"; row "p2" "Foo" "foo-1"; row "p3" "Foo" "foo-2"].

Definition admin : Posts.User :=
  {| Posts.user_id := "u9"; Posts.user_role := Posts.ADMIN |}.

Definition body (title : string) : Posts.PostBody :=
  {| Posts.body_title := title; Posts.body_content := "<p>Body</p>";
     Posts.body_excerpt := None; Posts.body_status := None;
     Posts.body_metaTitle := None; Posts.body_metaDescription := None |}.

(** A post that passes every check of both analysers: 36 characters of
    title, 130 of meta description, a heading, an image with alt text, a
    link and 300 words. *)
Definition good_title : string := "A fine title that is long enough yes".

Definition good_meta : string := repeat "0123456789" 13.

Definition good_content : string :=
  "<h2>Head</h2> <img src='x' alt='y'> <a href='/'>l</a> " +:+ repeat "word " 300.

(** 150 line breaks and no text. *)
Definition markup_only : string := repeat "<br /> " 150.

(** 100 words, five of them hooks. *)
Definition hooks_content : string :=
  "hooks hooks hooks hooks hooks" +:+ repeat " w" 95.


End Samples.

(** ** Arrays *)

Module JsArray.

(** [arr.sort(cmp)].  The sort of the language is stable, and for a
    comparator that orders the elements consistently its result is the
    stable sort by that order, which insertion from the right computes:
    an element passes the ones it compares greater than. *)
Fixpoint insert {A} (cmp : A -> A -> Z) (x : A) (l : list A) : list A :=
  match l with
  | [] => [x]
  | y :: l' => if (0 <? cmp x y)%Z then y :: insert cmp x l' else x :: l
  end.

Definition sort {A} (cmp : A -> A -> Z) (l : list A) : list A :=
  foldr (insert cmp) [] l.

(** The longest prefix of characters that satisfy [p], and the rest. *)
Fixpoint span (p : ascii -> bool) (s : string) : string * string :=
  match s with
  | "" => ("", "")
  | String c r =>
      if p c then prod_map (String c) id (span p r) else ("", s)
  end.

End JsArray.

(** ** routes/posts.js: creating and deleting *)

Module PostRoutes.
Import Js Slugify Posts.

(** The row that [prisma.post.create] stores for the body of a request;
    [status] is [DRAFT] when the body has none.  The key comes from
    [cuid()] and is the argument [newId] here. *)
Definition new_post (newId : string) (b : PostBody) (slug authorId : string) : Post :=
  {| post_id := newId;
     post_title := body_title b;
     post_slug := slug;
     post_content := body_content b;
     post_excerpt := body_excerpt b;
     post_status := default DRAFT (body_status b);
     post_authorId := authorId;
     post_metaTitle := body_metaTitle b;
     post_metaDescription := body_metaDescription b |}.

(** [prisma.post.create({ data })]: the primary key and the unique index
    on [slug] reject a row whose key or slug is taken.  The table can
    reject [data] for a column that is not modelled as well (the foreign
    key of [categoryId], the date of [scheduledAt]); [accepted] is its
    verdict on those columns.  The call is not written to the log, which
    has entries for lookups and updates only. *)
Definition create_checked (accepted : bool) (post : Post) (db : Db) : option Post * Db :=
  if negb accepted
     || existsb (fun p => slug_is (post_slug post) p || id_is (post_id post) p) (posts db)
  then (None, db)
  else (Some post, {| posts := posts db ++ [post]; queries := queries db |}).

(** The creation on a table that accepts the other columns. *)
Definition create : Post -> Db -> option Post * Db := create_checked true.

Inductive CreateResponse :=
| Created (post : Post)
| CreateValidationFailed
| CreatePostError.

(** The handler of [POST /api/posts] up to the creation of the row. *)
Definition create_post_checked (accepted : bool) (user : User) (newId : string)
    (b : PostBody) (db : Db) : CreateResponse * Db :=
  if negb (postValidation b) then (CreateValidationFailed, db)
  else
    let '(slug, db) := generateUniqueSlug (body_title b) None db in
    match slug with
    | None => (CreatePostError, db)
    | Some slug =>
        match create_checked accepted (new_post newId b slug (user_id user)) db with
        | (Some post, db) => (Created post, db)
        | (None, db) => (CreatePostError, db)
        end
    end.

(** The handler on a table that accepts the other columns. *)
Definition create_post : User -> string -> PostBody -> Db -> CreateResponse * Db :=
  create_post_checked true.

Inductive DeleteResponse :=
| Deleted
| DeleteNotFound
| DeleteForbidden.

(** [prisma.post.delete({ where: { id } })]; not written to the log. *)
Definition delete (id : string) (db : Db) : Db :=
  {| posts := List.filter (fun p => negb (id_is id p)) (posts db);
     queries := queries db |}.

(** The handler of [DELETE /api/posts/:id]. *)
Definition delete_post (user : User) (id : string) (db : Db) : DeleteResponse * Db :=
  let '(existingPost, db) := findUniqueById id db in
  match existingPost with
  | None => (DeleteNotFound, db)
  | Some existingPost =>
      if negb (bool_decide (user_role user = ADMIN))
         && negb (String.eqb (post_authorId existingPost) (user_id user))
      then (DeleteForbidden, db)
      else (Deleted, delete id db)
  end.

End PostRoutes.

(** ** routes/seo.js: the routes *)

Module SeoRoutes.
Import Js JsArray Slugify Posts Seo.

(** The characters of the [remove] option of the slug route,
    [/[*+~.()'DQ!:@]/g] with the double quote for DQ, by code. *)
Definition removed_by_option (c : ascii) : bool :=
  existsb (N.eqb (code c)) [42; 43; 126; 46; 40; 41; 39; 34; 33; 58; 64]%N.

(** Modelled from the spec: the body of the package's [reduce] when the
    caller passes its own [remove] pattern, which then replaces the
    default one. *)
Definition appendChar_removing (ch : ascii) : string :=
  let a := default (String ch "") (charMap ch) in
  let a := if String.eqb a "-" then " " else a in
  filter_chars (fun c => negb (removed_by_option c)) a.

(** Modelled from the spec:
    [slugify(title, { lower: true, strict: true, remove: /[*+~.()'DQ!:@]/g })]
    of the package that is not among the sources, with the steps of
    [Slugify.slugify]. *)
Definition slugify_removing (title : string) : string :=
  let slug :=
    fold_left (fun result ch => result +:+ appendChar_removing ch)
              (list_ascii_of_string title) "" in
  let slug := filter_chars kept_by_strict slug in
  let slug := trim slug in
  let slug := replace_spaces "-" slug in
  toLowerCase slug.

Inductive SlugResponse :=
| SlugOk (slug : string) (isUnique : bool)
| SlugValidationFailed
| SlugError.

(** The handler of [POST /api/seo/generate-slug]; its loop is the loop of
    [generateUniqueSlug], run for the same number of rounds. *)
Definition generate_slug (title postId : option string) (db : Db) : SlugResponse * Db :=
  if negb (truthy title) then (SlugValidationFailed, db)
  else
    let baseSlug := slugify_removing (default "" title) in
    match probe (S (length (posts db))) postId baseSlug baseSlug 1 db with
    | (Some (slug, counter), db) => (SlugOk slug (counter =? 1)%nat, db)
    | (None, db) => (SlugError, db)
    end.

Inductive AnalyzeResponse :=
| AnalyzeOk (analysis : Analysis) (generatedSlug : string)
| AnalyzeValidationFailed
| AnalyzeError.

(** The handler of [POST /api/seo/analyze], for any reading
    [countMatches] of the patterns built from the title words, as
    [Seo.analyzeSEO_with] takes it: the handler answers with its error
    exactly when the constructor rejects one of them. *)
Definition analyze_with (countMatches : string -> string -> option nat)
    (title content slug metaDescription : option string) : AnalyzeResponse :=
  if negb (truthy title && truthy content) then AnalyzeValidationFailed
  else
    let finalSlug :=
      if truthy slug then default "" slug else slugify (default "" title) in
    match analyzeSEO_with countMatches content title metaDescription (Some finalSlug) with
    | Some analysis => AnalyzeOk analysis finalSlug
    | None => AnalyzeError
    end.

(** The columns that the suggestions route selects. *)
Record SelectedPost := {
  sel_id : string;
  sel_title : string;
  sel_slug : string;
  sel_metaTitle : option string;
  sel_metaDescription : option string;
  sel_content : string;
  sel_viewCount : nat
}.

Inductive Priority := High | Medium.

Record Suggestion := {
  sg_postId : string;
  sg_title : string;
  sg_slug : string;
  sg_issues : list string;
  sg_priority : Priority
}.

(** The issues that the loop over the posts collects for one post. *)
Definition issuesOf (post : SelectedPost) : list string :=
  ((if negb (truthy (sel_metaTitle post)) then ["Missing meta title"]
    else if (60 <? len (sel_metaTitle post))%nat then ["Meta title too long"]
    else [])
   ++ (if negb (truthy (sel_metaDescription post)) then ["Missing meta description"]
       else if (160 <? len (sel_metaDescription post))%nat then ["Meta description too long"]
       else [])
   ++ (if (75 <? String.length (sel_slug post))%nat then ["URL slug too long"] else [])
   ++ (if (wordCount (sel_content post) <? 300)%nat then ["Content too short for SEO"]
       else []))%list.

(** A row that none of the four tests objects to. *)
Definition wellFormed (post : SelectedPost) : bool :=
  truthy (sel_metaTitle post) && (len (sel_metaTitle post) <=? 60)%nat
  && truthy (sel_metaDescription post) && (len (sel_metaDescription post) <=? 160)%nat
  && (String.length (sel_slug post) <=? 75)%nat
  && (300 <=? wordCount (sel_content post))%nat.

Definition suggestionOf (post : SelectedPost) : option Suggestion :=
  let issues := issuesOf post in
  if (0 <? length issues)%nat
  then Some {| sg_postId := sel_id post; sg_title := sel_title post;
               sg_slug := sel_slug post; sg_issues := issues;
               sg_priority := if (2 <? length issues)%nat then High else Medium |}
  else None.

Definition is_high (s : Suggestion) : bool :=
  match sg_priority s with High => true | Medium => false end.

(** The comparator of the sort by priority. *)
Definition by_priority (a b : Suggestion) : Z :=
  if is_high a && negb (is_high b) then (-1)%Z
  else if is_high b && negb (is_high a) then 1%Z
  else 0%Z.

(** The body of the handler of [GET /api/seo/suggestions] on the rows
    that the query returns: the suggestions of the response and
    [totalIssues]. *)
Definition suggestions (rows : list SelectedPost) : list Suggestion * nat :=
  let all := omap suggestionOf rows in
  let sorted := sort by_priority all in
  (take 20 sorted, length sorted).

Definition stopWords : list string :=
  ["the"; "and"; "for"; "are"; "but"; "not"; "you"; "all"; "can"; "had"; "her";
   "was"; "one"; "our"; "out"; "day"; "get"; "has"; "him"; "his"; "how"; "its";
   "may"; "new"; "now"; "old"; "see"; "two"; "who"; "boy"; "did"; "she"; "use";
   "way"; "will"; "with"].

(** [/\b[a-z]{3,}\b/] at the start of [s]: a whole run of small letters,
    at least three, with no word character on either side. *)
Definition small_word_at (prev_word : bool) (s : string) : option string :=
  let '(run, rest) := span is_lower s in
  if negb prev_word && (3 <=? String.length run)%nat && negb (head_is_word rest)
  then Some run else None.

(** [wordCount[word] = (wordCount[word] || 0) + 1] on the object as the
    list of its own entries, in the order in which the keys were added. *)
Fixpoint bump (word : string) (counts : list (string * nat)) : list (string * nat) :=
  match counts with
  | [] => [(word, 1)]
  | (w, n) :: rest =>
      if String.eqb w word then (w, S n) :: rest else (w, n) :: bump word rest
  end.

Definition is_stop (word : string) : bool := existsb (String.eqb word) stopWords.

Definition countWords (words : list string) : list (string * nat) :=
  fold_left (fun counts word => if is_stop word then counts else bump word counts)
            words [].

(** The order of the sort by count: [a] comes no later than [b]. *)
Definition count_ge (a b : string * nat) : Prop := b.2 <= a.2.

(** What the object of counts satisfies once the words [seen] are read:
    no key twice, no count below one, the keys are the words that are not
    stop words, and the counts add up to their number. *)
Definition counts_ok (seen : list string) (counts : list (string * nat)) : Prop :=
  NoDup (map fst counts)
  /\ Forall (fun wc => 1 <= wc.2) counts
  /\ (forall w, w ∈ map fst counts <-> w ∈ seen /\ is_stop w = false)
  /\ sum_list (map snd counts)
     = length (List.filter (fun w => negb (is_stop w)) seen).

Record Keyword := {
  kw_word : string;
  kw_count : nat;
  kw_density : string
}.

Record KeywordsBody := {
  keywords : list Keyword;
  totalWords : nat;
  uniqueWords : nat
}.

Inductive KeywordsResponse :=
| KeywordsOk (body : KeywordsBody)
| ContentRequired
| KeywordsUnread.

(** The comparator [([, a], [, b]) => b - a]. *)
Definition by_count_desc (a b : string * nat) : Z := (Z.of_nat b.2 - Z.of_nat a.2)%Z.

(** The handler of [GET /api/seo/keywords].  One text is left unread: the
    empty object that holds the counts inherits a property named
    constructor, so that for this word the count the source computes is
    not a number. *)
Definition keywords_route (content title : option string) : KeywordsResponse :=
  if negb (truthy content) then ContentRequired
  else
    let text :=
      toLowerCase ((if truthy title then default "" title else "")
                     +:+ " " +:+ default "" content) in
    let words := match_all small_word_at text in
    if existsb (String.eqb "constructor") words then KeywordsUnread
    else
      let counts := countWords words in
      KeywordsOk
        {| keywords :=
             map (fun wc => {| kw_word := wc.1; kw_count := wc.2;
                               kw_density := density_toFixed2 wc.2 (length words) |})
                 (take 20 (sort by_count_desc counts));
           totalWords := length words;
           uniqueWords := length counts |}.

End SeoRoutes.

(** ** The [SEOAnalyzer] component: the labels of a score *)

Module SEOAnalyzerView.

Inductive Colour := Green | Yellow | Red.

(** [getScoreColor]: [text-green-600], [text-yellow-600] or
    [text-red-600]. *)
Definition getScoreColor (score : nat) : Colour :=
  if (80 <=? score)%nat then Green
  else if (60 <=? score)%nat then Yellow
  else Red.

Inductive Label := Excellent | Good | NeedsImprovement | Poor.

(** [getScoreStatus]: [Excellent], [Good], [Needs Improvement] or
    [Poor]. *)
Definition getScoreStatus (score : nat) : Label :=
  if (80 <=? score)%nat then Excellent
  else if (60 <=? score)%nat then Good
  else if (40 <=? score)%nat then NeedsImprovement
  else Poor.

(** The number of places of [s] where a word starts: a character that is
    not white space and follows white space, or the start of the text
    when [at_start] holds. *)
Fixpoint wordStarts (at_start : bool) (s : string) : nat :=
  match s with
  | "" => 0
  | String c r =>
      if Js.is_space c then wordStarts true r
      else (if at_start then 1 else 0) + wordStarts false r
  end.

(** What the score of a check of the component says about its status:
    the score lies between [least] and ten, the check is a success
    exactly with ten points and an error exactly with none. *)
Definition graded (least : nat) (c : SEOAnalyzer.SEOCheck) : Prop :=
  least <= SEOAnalyzer.check_score c <= 10
  /\ (SEOAnalyzer.check_status c = SEOAnalyzer.Success <-> SEOAnalyzer.check_score c = 10)
  /\ (SEOAnalyzer.check_status c = SEOAnalyzer.Error <-> SEOAnalyzer.check_score c = 0).

End SEOAnalyzerView.

(** ** routes/seo.js: when the checks of [analyzeSEO] succeed *)

Module SeoChecks.
Import Js Seo.

(** The conditions on the arguments under which each check of
    [analyzeSEO] records a success, in the words of its tests. *)
Definition titleOk (title : option string) : bool :=
  truthy title && (30 <=? len title)%nat && (len title <=? 60)%nat.

Definition metaOk (metaDescription : option string) : bool :=
  truthy metaDescription && (120 <=? len metaDescription)%nat
  && (len metaDescription <=? 160)%nat.

Definition slugOk (slug : option string) : bool :=
  truthy slug && (len slug <=? 75)%nat && slug_charset (default "" slug).

Definition wordsOk (content : string) : bool := (300 <=? wordCount content)%nat.

Definition headingsOk (content : string) : bool :=
  (0 <? length (headingMatches content))%nat.

Definition hasImages (content : string) : bool :=
  (0 <? length (imageMatches content))%nat.

Definition imagesOk (content : string) : bool :=
  hasImages content
  && (length (List.filter withoutAlt (imageMatches content)) =? 0)%nat.

Definition linksOk (content : string) : bool :=
  (0 <? length (linkMatches content))%nat.

Definition points (ok : bool) (w : nat) : nat := if ok then w else 0.

(** The score as a sum over the conditions. *)
Definition scoreOf (content title metaDescription slug : option string) : nat :=
  points (titleOk title) 20 + points (metaOk metaDescription) 20
  + points (slugOk slug) 15
  + (if truthy content
     then let c := default "" content in
          points (wordsOk c) 15 + points (headingsOk c) 10
          + points (imagesOk c) 10 + points (linksOk c) 5
     else 0).

(** The keys of [analysis.checks], in the order in which they are set. *)
Definition keysOf (content : option string) : list string :=
  ["title"; "metaDescription"; "slug"]
  ++ (if truthy content
      then ["wordCount"; "headings"]
           ++ (if hasImages (default "" content) then ["images"] else [])
           ++ ["links"]
      else ["content"]).

(** The number of checks that are not a success. *)
Definition failures (cs : list (string * Check)) : nat :=
  length (List.filter (fun kc => match check_status kc.2 with
                                 | Success => false
                                 | _ => true
                                 end) cs).

(** The words of the title that get an entry in [keywordDensity]. *)
Definition longTitleWords (title : string) : list string :=
  List.filter (fun word => (3 <? String.length word)%nat)
              (split_spaces (toLowerCase title)).

(** The entry of [keywordDensity] for a word that matches [n] times. *)
Definition entryOf (content : string) (n : nat) : Density :=
  {| count := n; density := density_toFixed2 n (wordCount content) |}.

(** A step from [a] to [a'] that adds [n] points, sets the keys [keys],
    files one issue or suggestion for each check that is not a success,
    and leaves the keyword table alone. *)
Definition effect (n : nat) (keys : list string) (a a' : Analysis) : Prop :=
  score a' = score a + n
  /\ map fst (checks a') = (map fst (checks a) ++ keys)%list
  /\ length (issues a') + length (suggestions a') + failures (checks a)
     = length (issues a) + length (suggestions a) + failures (checks a')
  /\ keywordDensity a' = keywordDensity a.

End SeoChecks.

(** * Properties *)

Import Js Slugify Posts Samples.

(** ** Characters and strings *)

(** Case analysis on the 256 code units. *)
Ltac by_cases_on c :=
  destruct c as [[] [] [] [] [] [] [] []]; vm_compute; try done; intuition congruence.

(** A closed decidable proposition, by evaluation. *)
Ltac by_decision := apply (bool_decide_unpack _); vm_compute; exact I.

Section chars.

Lemma app_cons c s t : String c s +:+ t = String c (s +:+ t).
Proof. reflexivity. Qed.

Lemma app_empty_l t : "" +:+ t = t.
Proof. reflexivity. Qed.

Lemma is_empty_true s : is_empty s = true <-> s = "".
Proof. destruct s; simpl; split; congruence. Qed.

Lemma alnum_lower_slug c : is_alnum c = true -> Slugify.is_slug_char (lower_char c) = true.
Proof. by_cases_on c. Qed.

Lemma strict_not_alnum_space c :
  Slugify.kept_by_strict c = true -> is_alnum c = false -> is_space c = true.
Proof. by_cases_on c. Qed.

Lemma space_not_alnum c : is_space c = true -> is_alnum c = false.
Proof. by_cases_on c. Qed.

Lemma digit_slug_char c : is_digit c = true -> Slugify.is_slug_char c = true.
Proof. by_cases_on c. Qed.

Lemma filter_chars_all p s : all_chars p (filter_chars p s) = true.
Proof.
  induction s as [|c s IH]; simpl; [done|].
  destruct (p c) eqn:Hc; simpl; [rewrite Hc|]; done.
Qed.


Lemma all_chars_trimStart p s : all_chars p s = true -> all_chars p (trimStart s) = true.
Proof.
  induction s as [|c s IH]; simpl; [done|].
  intros [Hc Hs]%andb_prop. destruct (is_space c); [auto|].
  simpl. by rewrite Hc, Hs.
Qed.

Lemma all_chars_trimEnd p s : all_chars p s = true -> all_chars p (trimEnd s) = true.
Proof.
  induction s as [|c s IH]; simpl; [done|].
  intros [Hc Hs]%andb_prop.
  destruct (is_space c && is_empty (trimEnd s)); simpl; [done|].
  by rewrite Hc, IH.
Qed.

Lemma trimEnd_ends s : trimEnd s = "" \/ ends_nonspace (trimEnd s) = true.
Proof.
  induction s as [|c s IH]; simpl; [by left|].
  destruct (is_space c) eqn:Hc; simpl.
  - destruct (trimEnd s) as [|d r] eqn:Hr; simpl; [by left|].
    right. by destruct IH.
  - right. destruct (trimEnd s) as [|d r] eqn:Hr; simpl; [by rewrite Hc|].
    by destruct IH.
Qed.

Lemma trimStart_head s :
  trimStart s = "" \/ exists c r, trimStart s = String c r /\ is_space c = false.
Proof.
  induction s as [|c s IH]; simpl; [by left|].
  destruct (is_space c) eqn:Hc; [done|]. right. eauto.
Qed.

Lemma trim_ends s :
  trim s = "" \/
  exists c r, trim s = String c r /\ is_space c = false /\ ends_nonspace (trim s) = true.
Proof.
  unfold trim. destruct (trimStart_head s) as [->|(c & r & -> & Hc)]; [by left|].
  right. destruct (trimEnd_ends (String c r)) as [H|H].
  - simpl in H. rewrite Hc in H. done.
  - simpl in *. rewrite Hc in *. simpl in *. eauto.
Qed.


(** ** The shape of a slug *)

Lemma lower_hyphen : lower_char "-" = "-"%char.
Proof. reflexivity. Qed.


(** After the strict filter and the trim, a string that ends on a kept
    character turns into hyphen-separated runs: [slug_shape_go] accepts
    the rest of the output both right after an alphanumeric ([true], no
    run of white space open) and right after a hyphen ([false], inside a
    run). *)
Lemma shape_of_collapsed s :
  all_chars Slugify.kept_by_strict s = true ->
  ends_nonspace s = true ->
  Slugify.slug_shape_go true (toLowerCase (replace_spaces_go "-" false s)) = true
  /\ Slugify.slug_shape_go false (toLowerCase (replace_spaces_go "-" true s)) = true.
Proof.
  induction s as [|c s IH]; [done|].
  intros [Hc Hs]%andb_prop Hend.
  assert (Hrest : s = "" \/ ends_nonspace s = true).
  { destruct s; [by left|by right]. }
  destruct (is_alnum c) eqn:Hal.
  - assert (is_space c = false) as Hsp.
    { destruct (is_space c) eqn:E; [|done]. apply space_not_alnum in E. congruence. }
    simpl. rewrite Hsp. simpl. rewrite (alnum_lower_slug c Hal).
    destruct Hrest as [->|Hr]; [done|]. destruct (IH Hs Hr) as [IH1 _]. done.
  - pose proof (strict_not_alnum_space c Hc Hal) as Hsp.
    destruct Hrest as [->|Hr].
    { simpl in Hend. by rewrite Hsp in Hend. }
    destruct (IH Hs Hr) as [_ IH2].
    simpl. rewrite Hsp. rewrite app_cons, app_empty_l. simpl.
    split; [|done].
    replace (Slugify.is_slug_char (lower_char "-")) with false by reflexivity.
    replace (Ascii.eqb (lower_char "-") "-") with true by reflexivity.
    done.
Qed.

Lemma slugify_shape title :
  Slugify.slugify title = "" \/ Slugify.slug_shape (Slugify.slugify title) = true.
Proof.
  unfold Slugify.slugify.
  set (raw := fold_left _ _ _).
  pose proof (filter_chars_all Slugify.kept_by_strict raw) as Hall.
  set (kept := filter_chars _ raw) in *.
  destruct (trim_ends kept) as [->|(c & r & Heq & Hc & Hend)]; [by left|].
  right.
  assert (all_chars Slugify.kept_by_strict (trim kept) = true) as Hall'.
  { unfold trim. by apply all_chars_trimEnd, all_chars_trimStart. }
  rewrite Heq in *. simpl in Hall'. apply andb_prop in Hall' as [Hkc Hkr].
  assert (is_alnum c = true) as Hal.
  { destruct (is_alnum c) eqn:E; [done|].
    pose proof (strict_not_alnum_space c Hkc E). congruence. }
  unfold Slugify.slug_shape, replace_spaces. simpl. rewrite Hc. simpl.
  rewrite (alnum_lower_slug c Hal).
  destruct r as [|d r]; [done|].
  apply shape_of_collapsed; [done|]. simpl in Hend. done.
Qed.

(** A suffix [-digits] keeps the shape. *)
Lemma shape_digits b d :
  all_chars is_digit d = true -> d <> "" -> Slugify.slug_shape_go b d = true.
Proof.
  revert b. induction d as [|c d IH]; [done|].
  intros b [Hc Hd]%andb_prop _. simpl. rewrite (digit_slug_char c Hc).
  destruct d; [done|]. by apply IH.
Qed.

Lemma shape_suffix b s d :
  Slugify.slug_shape_go b s = true ->
  all_chars is_digit d = true -> d <> "" ->
  Slugify.slug_shape_go b (s +:+ "-" +:+ d) = true.
Proof.
  intros Hs Hd Hne. revert b Hs. induction s as [|c s IH]; intros b Hs.
  - simpl in Hs. subst b. rewrite app_empty_l, app_cons, app_empty_l.
    simpl. by apply shape_digits.
  - rewrite app_cons. simpl in *.
    destruct (Slugify.is_slug_char c); [by apply IH|].
    destruct (Ascii.eqb c "-"); [|done].
    apply andb_prop in Hs as [-> Hs]. simpl. by apply IH.
Qed.

(** ** Decimal numerals *)

Lemma pretty_N_char_digit x : is_digit (pretty_N_char x) = true.
Proof. unfold pretty_N_char. repeat case_match; reflexivity. Qed.

Lemma pretty_N_go_digits x s :
  all_chars is_digit s = true -> all_chars is_digit (pretty_N_go x s) = true.
Proof.
  revert s. induction (N.lt_wf_0 x) as [x _ IH]; intros s Hs.
  destruct (decide (x = 0)%N) as [->|Hx]; [by rewrite pretty_N_go_0|].
  rewrite pretty_N_go_step by lia. apply IH.
  - apply N.div_lt; lia.
  - simpl. by rewrite pretty_N_char_digit.
Qed.

Lemma pretty_N_go_nonempty x s : s <> "" -> pretty_N_go x s <> "".
Proof.
  revert s. induction (N.lt_wf_0 x) as [x _ IH]; intros s Hs.
  destruct (decide (x = 0)%N) as [->|Hx]; [by rewrite pretty_N_go_0|].
  rewrite pretty_N_go_step by lia. apply IH; [apply N.div_lt; lia|done].
Qed.

Lemma pretty_nat_digits (n : nat) : all_chars is_digit (pretty n) = true.
Proof.
  unfold pretty, pretty_nat, pretty, pretty_N.
  case_decide; [done|]. by apply pretty_N_go_digits.
Qed.

Lemma pretty_nat_nonempty (n : nat) : pretty n <> "".
Proof.
  unfold pretty, pretty_nat, pretty, pretty_N.
  case_decide; [done|].
  rewrite pretty_N_go_step by lia. by apply pretty_N_go_nonempty.
Qed.

End chars.

(** ** The probe loop *)

Section probe_loop.

Lemma length_app_string s t : String.length (s +:+ t) = String.length s + String.length t.
Proof. induction s as [|c s IH]; [done|]. rewrite app_cons. simpl. by rewrite IH. Qed.

Lemma candidate_succ baseSlug k :
  candidate baseSlug (S k) = baseSlug +:+ "-" +:+ pretty (S k).
Proof. reflexivity. Qed.

Lemma candidate_inj baseSlug j k :
  candidate baseSlug j = candidate baseSlug k -> j = k.
Proof.
  destruct j as [|j], k as [|k]; simpl; intros H; [done| | |].
  - apply (f_equal String.length) in H. rewrite length_app_string in H.
    rewrite app_cons in H. simpl in H. lia.
  - apply (f_equal String.length) in H. rewrite length_app_string in H.
    rewrite app_cons in H. simpl in H. lia.
  - apply (inj (String.app baseSlug)) in H.
    apply (inj (String.app "-")) in H.
    by apply (inj pretty) in H.
Qed.

Lemma find_slug_Some db s p :
  find (slug_is s) (posts db) = Some p -> p ∈ posts db /\ post_slug p = s.
Proof.
  intros [Hin Hs]%find_some. split; [by apply list_elem_of_In|].
  unfold slug_is in Hs. by apply String.eqb_eq in Hs.
Qed.

Lemma posts_logged q db : posts (logged q db) = posts db.
Proof. reflexivity. Qed.

(** The loop only reads the table. *)
Lemma probe_posts fuel postId baseSlug slug counter db :
  posts (probe fuel postId baseSlug slug counter db).2 = posts db.
Proof.
  revert slug counter db. induction fuel as [|fuel IH]; intros slug counter db; [done|].
  simpl. destruct (slug_available _ _); [done|]. by rewrite IH.
Qed.

(** More rounds do not change a result that was reached. *)
Lemma probe_more_fuel fuel extra postId baseSlug slug counter db r db' :
  probe fuel postId baseSlug slug counter db = (Some r, db') ->
  probe (fuel + extra) postId baseSlug slug counter db = (Some r, db').
Proof.
  revert slug counter db. induction fuel as [|fuel IH]; intros slug counter db; [done|].
  simpl. destruct (slug_available _ _); [done|]. apply IH.
Qed.

(** The loop from its [k]-th candidate on, when the [k] candidates
    before were each found in a row of their own ([hit]): it stops within
    as many further rounds as there are rows left. *)
Lemma probe_from fuel postId baseSlug k db hit :
  NoDup hit -> hit ⊆ posts db -> length hit = k ->
  Forall (fun p => (exists j, j < k /\ post_slug p = candidate baseSlug j)
                   /\ slug_available (Some p) postId = false) hit ->
  length (posts db) < fuel + k ->
  exists k' hit' db',
    probe fuel postId baseSlug (candidate baseSlug k) (S k) db
      = (Some (candidate baseSlug k', S k'), db')
    /\ k <= k'
    /\ NoDup hit' /\ hit' ⊆ posts db /\ length hit' = k'
    /\ Forall (collides baseSlug postId) hit'
    /\ slug_available (find (slug_is (candidate baseSlug k')) (posts db)) postId = true
    /\ posts db' = posts db
    /\ queries db'
       = (queries db ++ map (fun i => FindPostBySlug (candidate baseSlug i))
                            (seq k (S k' - k)))%list.
Proof.
  revert k db hit. induction fuel as [|fuel IH]; intros k db hit Hnd Hincl Hlen Hall Hfuel.
  { assert (length hit <= length (posts db)); [|lia].
    apply submseteq_length, NoDup_submseteq; [done|]. intros x Hx. by apply Hincl. }
  simpl.
  destruct (slug_available (find (slug_is (candidate baseSlug k)) (posts db)) postId) eqn:Hav.
  - exists k, hit, (logged (FindPostBySlug (candidate baseSlug k)) db).
    repeat split; try done.
    + eapply Forall_impl; [exact Hall|]. intros p [(j & _ & Hj) Hp]. split; eauto.
    + replace (S k - k) with 1 by lia. done.
  - destruct (find (slug_is (candidate baseSlug k)) (posts db)) as [p|] eqn:Hfind; [|done].
    apply find_slug_Some in Hfind as [Hin Hslug].
    assert (Hfresh : p ∉ hit).
    { intros Hp. rewrite Forall_forall in Hall.
      destruct (Hall p Hp) as [(j & Hj & Hpj) _].
      rewrite Hslug in Hpj. apply candidate_inj in Hpj. lia. }
    destruct (IH (S k) (logged (FindPostBySlug (candidate baseSlug k)) db) (p :: hit))
      as (k' & hit' & db' & Hrun & Hle & Hnd' & Hincl' & Hlen' & Hall' & Hav' & Hposts & Hq).
    + by constructor.
    + intros x [->|Hx]%elem_of_cons; simpl; auto.
    + simpl. lia.
    + constructor.
      * split; [exists k; split; [lia|done]|done].
      * eapply Forall_impl; [exact Hall|]. intros x [(j & Hj & Hx) Hx']. split; [|done].
        exists j. split; [lia|done].
    + simpl. lia.
    + exists k', hit', db'. rewrite <- candidate_succ.
      repeat split; try done; [lia|].
      rewrite Hq. simpl. rewrite <- app_assoc. f_equal.
      replace (S k' - k) with (S (k' - k)) by lia. simpl.
      destruct k' as [|k']; [lia|]. done.
Qed.

(** [generateUniqueSlug] with the rounds it runs, and with any larger
    number of rounds. *)
Lemma probe_enough_fuel fuel title postId db :
  length (posts db) < fuel ->
  exists k hit db',
    probe fuel postId (slugify title) (slugify title) 1 db
      = (Some (candidate (slugify title) k, S k), db')
    /\ generateUniqueSlug title postId db = (Some (candidate (slugify title) k), db')
    /\ NoDup hit /\ hit ⊆ posts db /\ length hit = k
    /\ Forall (collides (slugify title) postId) hit
    /\ slug_available (find (slug_is (candidate (slugify title) k)) (posts db)) postId = true
    /\ posts db' = posts db
    /\ queries db'
       = (queries db ++ map (fun i => FindPostBySlug (candidate (slugify title) i))
                            (seq 0 (S k)))%list.
Proof.
  intros Hfuel.
  destruct (probe_from (S (length (posts db))) postId (slugify title) 0 db [])
    as (k & hit & db' & Hrun & _ & Hnd & Hincl & Hlen & Hall & Hav & Hposts & Hq).
  { constructor. } { intros x Hx. by apply elem_of_nil in Hx. } { done. } { constructor. } { lia. }
  exists k, hit, db'. simpl candidate in Hrun.
  replace (S k - 0) with (S k) in Hq by lia.
  repeat split; try done.
  - replace fuel with (S (length (posts db)) + (fuel - S (length (posts db)))) by lia.
    by apply probe_more_fuel.
  - unfold generateUniqueSlug. by rewrite Hrun.
Qed.

End probe_loop.

Section allocator.

Lemma probe_step_free fuel postId baseSlug slug counter db :
  slug_available (find (slug_is slug) (posts db)) postId = true ->
  probe (S fuel) postId baseSlug slug counter db
  = (Some (slug, counter), logged (FindPostBySlug slug) db).
Proof. intros H. simpl. by rewrite H. Qed.

Lemma probe_step_taken fuel postId baseSlug slug counter db :
  slug_available (find (slug_is slug) (posts db)) postId = false ->
  probe (S fuel) postId baseSlug slug counter db
  = probe fuel postId baseSlug (baseSlug +:+ "-" +:+ pretty counter) (S counter)
          (logged (FindPostBySlug slug) db).
Proof. intros H. simpl. by rewrite H. Qed.

Lemma find_slug_None l s : s ∉ map post_slug l -> find (slug_is s) l = None.
Proof.
  induction l as [|q l IH]; [done|]. simpl. intros Hs.
  apply not_elem_of_cons in Hs as [Hq Hl]. unfold slug_is at 1.
  destruct (String.eqb_spec (post_slug q) s); [congruence|auto].
Qed.

Lemma find_slug_elem l s : s ∈ map post_slug l -> exists p, find (slug_is s) l = Some p.
Proof.
  induction l as [|q l IH]; simpl; [by intros ?%elem_of_nil|].
  intros Hs. unfold slug_is at 1.
  destruct (String.eqb_spec (post_slug q) s); [eauto|].
  apply elem_of_cons in Hs as [Hs|Hs]; [congruence|auto].
Qed.

(** Under the unique index a row is the one found under its slug. *)
Lemma find_slug_unique l p :
  NoDup (map post_slug l) -> p ∈ l -> find (slug_is (post_slug p)) l = Some p.
Proof.
  induction l as [|q l IH]; simpl; [by intros _ ?%elem_of_nil|].
  intros [Hq Hnd]%NoDup_cons Hp. unfold slug_is at 1.
  destruct (String.eqb_spec (post_slug q) (post_slug p)) as [Heq|Hne].
  - apply elem_of_cons in Hp as [->|Hp]; [done|].
    exfalso. apply Hq. rewrite Heq. by apply list_elem_of_fmap_2.
  - apply elem_of_cons in Hp as [->|Hp]; [done|auto].
Qed.

Lemma available_cases existing postId :
  slug_available existing postId = true ->
  existing = None \/ exists p, existing = Some p /\ Some (post_id p) = postId.
Proof.
  destruct existing as [p|]; [|by left]. simpl.
  intros [_ H]%andb_prop. apply bool_decide_eq_true in H. right. eauto.
Qed.

Lemma issued_app db db' new :
  queries db' = (queries db ++ new)%list -> issued db db' = new.
Proof. intros H. unfold issued. rewrite H. by rewrite drop_app_length. Qed.

Lemma filter_probes (f : nat -> string) l :
  List.filter is_slug_probe (map (fun i => FindPostBySlug (f i)) l)
  = map (fun i => FindPostBySlug (f i)) l.
Proof. induction l as [|x l IH]; simpl; [done|]. by rewrite IH. Qed.

End allocator.


(** C7.  For every finite posts table the probe loop of
    [generateUniqueSlug] stops: run for any number of rounds above the
    number of rows it stops with a slug, the one [generateUniqueSlug]
    returns, which no row holds or which the excluded post holds.  The
    probes issued are as many as the final counter, one more than a
    duplicate-free list [hit] of colliding rows of the table, hence at most
    the number of rows plus one; no other bound enters. *)
Theorem generateUniqueSlug_terminates title postId db fuel :
  length (posts db) < fuel ->
  exists slug counter hit db',
    probe fuel postId (slugify title) (slugify title) 1 db = (Some (slug, counter), db')
    /\ generateUniqueSlug title postId db = (Some slug, db')
    /\ (find (slug_is slug) (posts db) = None
        \/ exists p, find (slug_is slug) (posts db) = Some p /\ Some (post_id p) = postId)
    /\ NoDup hit /\ hit ⊆ posts db /\ Forall (collides (slugify title) postId) hit
    /\ counter = length hit + 1
    /\ length (List.filter is_slug_probe (issued db db')) = counter
    /\ counter <= length (posts db) + 1.
Proof.
  intros Hfuel.
  destruct (probe_enough_fuel fuel title postId db Hfuel)
    as (k & hit & db' & Hrun & Hgen & Hnd & Hincl & Hlen & Hall & Hav & Hposts & Hq).
  exists (candidate (slugify title) k), (S k), hit, db'.
  repeat split; try done.
  - by apply available_cases.
  - lia.
  - rewrite (issued_app _ _ _ Hq), filter_probes, length_map, length_seq. done.
  - assert (length hit <= length (posts db)); [|lia].
    by apply submseteq_length, NoDup_submseteq.
Qed.

Lemma generateUniqueSlug_terminates_witness :
  length (posts (table foo_rows)) < 4
  /\ exists slug counter,
       probe 4 None (slugify "Foo") (slugify "Foo") 1 (table foo_rows)
         = (Some (slug, counter),
            {| posts := foo_rows;
               queries := map FindPostBySlug ["foo"; "foo-1"; "foo-2"; "foo-3"] |})
       /\ counter <= length (posts (table foo_rows)) + 1.
Proof.
  split; [simpl; lia|].
  destruct (generateUniqueSlug_terminates "Foo" None (table foo_rows) 4)
    as (slug & counter & hit & db' & Hrun & _ & _ & _ & _ & _ & _ & _ & Hle).
  { simpl; lia. }
  vm_compute in Hrun. injection Hrun as <- <- <-.
  exists "foo-3", 4. split; [reflexivity|exact Hle].
Defined.


(** C5.  When the slugs of the posts table are exactly foo, foo-1 and
    foo-2, [generateUniqueSlug] for the title Foo and no post id returns
    foo-3. *)
Theorem generateUniqueSlug_foo_3 db :
  (forall s, s ∈ map post_slug (posts db) <-> s ∈ ["foo"; "foo-1"; "foo-2"]) ->
  (generateUniqueSlug "Foo" None db).1 = Some "foo-3".
Proof.
  intros Hslugs.
  assert (Htaken : forall s, s ∈ ["foo"; "foo-1"; "foo-2"] ->
            slug_available (find (slug_is s) (posts db)) None = false).
  { intros s Hs. apply Hslugs, find_slug_elem in Hs as [p ->]. done. }
  assert (Hfree : slug_available (find (slug_is "foo-3") (posts db)) None = true).
  { rewrite find_slug_None; [done|]. rewrite Hslugs. by_decision. }
  assert (Hlen : 3 <= length (posts db)).
  { rewrite <- (length_map post_slug).
    change 3 with (length ["foo"; "foo-1"; "foo-2"]).
    apply submseteq_length, NoDup_submseteq.
    - by_decision.
    - intros s Hs. by apply Hslugs. }
  assert (Hrun : probe 4 None "foo" "foo" 1 db
                 = (Some ("foo-3", 4),
                    logged (FindPostBySlug "foo-3")
                      (logged (FindPostBySlug "foo-2")
                         (logged (FindPostBySlug "foo-1")
                            (logged (FindPostBySlug "foo") db))))).
  { rewrite probe_step_taken by (apply Htaken; by_decision).
    change ("foo" +:+ "-" +:+ pretty 1) with "foo-1".
    rewrite probe_step_taken by (apply Htaken; by_decision).
    change ("foo" +:+ "-" +:+ pretty 2) with "foo-2".
    rewrite probe_step_taken by (apply Htaken; by_decision).
    change ("foo" +:+ "-" +:+ pretty 3) with "foo-3".
    by rewrite probe_step_free. }
  unfold generateUniqueSlug. change (slugify "Foo") with "foo".
  replace (S (length (posts db))) with (4 + (length (posts db) - 3)) by lia.
  by rewrite (probe_more_fuel _ _ _ _ _ _ _ _ _ Hrun).
Qed.

Lemma generateUniqueSlug_foo_3_witness :
  (forall s, s ∈ map post_slug (posts (table foo_rows)) <-> s ∈ ["foo"; "foo-1"; "foo-2"])
  /\ (generateUniqueSlug "Foo" None (table foo_rows)).1 = Some "foo-3".
Proof.
  assert (H : forall s, s ∈ map post_slug (posts (table foo_rows))
                        <-> s ∈ ["foo"; "foo-1"; "foo-2"]).
  { intros s. reflexivity. }
  split; [exact H|]. exact (generateUniqueSlug_foo_3 (table foo_rows) H).
Defined.

(** C6.  With a table that meets the schema, if a row [p] holds the slug
    foo, then [generateUniqueSlug] for the title Foo with the id of [p] as
    the post id returns foo itself. *)
Theorem generateUniqueSlug_own_slug db p :
  schema_ok db -> p ∈ posts db -> post_slug p = "foo" ->
  (generateUniqueSlug "Foo" (Some (post_id p)) db).1 = Some "foo".
Proof.
  intros (_ & Hslugs & Hids) Hp Hslug.
  pose proof (find_slug_unique _ _ Hslugs Hp) as Hfind. rewrite Hslug in Hfind.
  rewrite Forall_forall in Hids. specialize (Hids p Hp).
  unfold generateUniqueSlug. change (slugify "Foo") with "foo".
  rewrite probe_step_free; [done|].
  rewrite Hfind. simpl. rewrite bool_decide_eq_true_2 by done.
  destruct (post_id p); [done|reflexivity].
Qed.

Lemma schema_ok_foo_rows : schema_ok (table foo_rows).
Proof.
  repeat split; by_decision.
Defined.

Lemma generateUniqueSlug_own_slug_witness :
  schema_ok (table foo_rows)
  /\ row "p1" "Foo" "foo" ∈ posts (table foo_rows)
  /\ (generateUniqueSlug "Foo" (Some "p1") (table foo_rows)).1 = Some "foo".
Proof.
  split; [exact schema_ok_foo_rows|]. split; [by left|].
  apply (generateUniqueSlug_own_slug (table foo_rows) (row "p1" "Foo" "foo")).
  - exact schema_ok_foo_rows.
  - by left.
  - reflexivity.
Defined.


Lemma candidate_nonempty baseSlug k : baseSlug <> "" -> candidate baseSlug k <> "".
Proof.
  intros Hb. destruct k as [|k]; [done|]. simpl. destruct baseSlug; [done|].
  by rewrite app_cons.
Qed.

Lemma candidate_shape baseSlug k :
  slug_shape baseSlug = true -> slug_shape (candidate baseSlug k) = true.
Proof.
  intros Hb. destruct k as [|k]; [done|]. simpl.
  apply shape_suffix; [done|apply pretty_nat_digits|apply pretty_nat_nonempty].
Qed.

(** Counterexample to C2 as stated.  The base of the title "!!!###" is
    empty, and on an empty table [generateUniqueSlug] returns the empty
    slug for it: nothing fails. *)
Lemma generateUniqueSlug_punctuation_only :
  slugify "!!!###" = ""
  /\ (generateUniqueSlug "!!!###" None (table [])).1 = Some "".
Proof. split; reflexivity. Qed.

(** C2, amended.  A title whose slug base is empty, as for the title
    "!!!###", raises nothing: [generateUniqueSlug] returns a slug for
    every title, the empty one when the base is empty and no row holds the
    empty slug or the excluded post does; the slug is not empty when the
    base is not. *)
Theorem generateUniqueSlug_empty_base :
  slugify "!!!###" = ""
  /\ forall title postId db,
       exists slug,
         (generateUniqueSlug title postId db).1 = Some slug
         /\ (slugify title = "" ->
             slug_available (find (slug_is "") (posts db)) postId = true ->
             slug = "")
         /\ (slugify title <> "" -> slug <> "").
Proof.
  split; [reflexivity|]. intros title postId db.
  destruct (probe_enough_fuel (S (length (posts db))) title postId db)
    as (k & hit & db' & _ & Hgen & _ & _ & _ & _ & _ & _ & _); [lia|].
  unfold generateUniqueSlug in *.
  destruct (decide (slugify title = "")) as [Hempty|Hne].
  - rewrite Hempty in *.
    destruct (slug_available (find (slug_is "") (posts db)) postId) eqn:Hav.
    + exists "". rewrite probe_step_free by done. done.
    + exists (candidate "" k). rewrite Hgen. done.
  - exists (candidate (slugify title) k). rewrite Hgen.
    split; [done|]. split; [done|]. intros _. by apply candidate_nonempty.
Qed.

Lemma generateUniqueSlug_empty_base_witness :
  slugify "!!!###" = ""
  /\ slug_available (find (slug_is "") (posts (table []))) None = true
  /\ (generateUniqueSlug "!!!###" None (table [])).1 = Some "".
Proof.
  destruct generateUniqueSlug_empty_base as [Hbase Hall].
  destruct (Hall "!!!###" None (table [])) as (slug & Hrun & Hempty & _).
  split; [exact Hbase|]. split; [reflexivity|].
  rewrite Hrun. f_equal. apply Hempty; reflexivity.
Defined.

(** Counterexample to C3 as stated.  Once a row holds the empty slug, a
    title without letters or digits is given the slug -1, which starts
    with a hyphen. *)
Lemma generateUniqueSlug_leading_hyphen :
  (generateUniqueSlug "???" None (table [row "p1" "!!!" ""])).1 = Some "-1"
  /\ slug_shape "-1" = false.
Proof. split; reflexivity. Qed.

(** C3, amended.  For every title whose slug base is not empty, the slug
    that [generateUniqueSlug] returns matches
    [^[a-z0-9]+(-[a-z0-9]+)*$]; the base of the title
    "Hello, World! 2024" is hello-world-2024. *)
Theorem generateUniqueSlug_shape :
  slugify "Hello, World! 2024" = "hello-world-2024"
  /\ forall title postId db,
       slugify title <> "" ->
       exists slug,
         (generateUniqueSlug title postId db).1 = Some slug
         /\ slug_shape slug = true.
Proof.
  split; [reflexivity|]. intros title postId db Hne.
  destruct (probe_enough_fuel (S (length (posts db))) title postId db)
    as (k & hit & db' & _ & Hgen & _); [lia|].
  exists (candidate (slugify title) k). rewrite Hgen. split; [done|].
  apply candidate_shape. by destruct (slugify_shape title).
Qed.

Lemma generateUniqueSlug_shape_witness :
  slugify "Foo" <> ""
  /\ exists slug,
       (generateUniqueSlug "Foo" None (table foo_rows)).1 = Some slug
       /\ slug_shape slug = true.
Proof.
  split; [discriminate|].
  destruct generateUniqueSlug_shape as [_ Hall].
  apply (Hall "Foo" None (table foo_rows)). discriminate.
Defined.

(** ** The update handler *)

Lemma find_id_map id f l :
  (forall p, post_id (f p) = post_id p) ->
  find (id_is id) (map (fun p => if id_is id p then f p else p) l)
  = f <$> find (id_is id) l.
Proof.
  intros Hf. induction l as [|q l IH]; [done|]. simpl.
  destruct (id_is id q) eqn:Hq.
  - unfold id_is in *. by rewrite Hf, Hq.
  - by rewrite Hq.
Qed.

Lemma issued_refl db : issued db db = [].
Proof. unfold issued. by rewrite drop_all. Qed.

(** C8.  When the title in the body of [PUT /api/posts/:id] is the title
    the row already has, the row keeps its slug whatever the handler
    answers, an updated post carries that slug, and the handler issues no
    lookup by slug: [generateUniqueSlug] is not run. *)
Theorem put_post_same_title_keeps_slug user id b db existing :
  find (id_is id) (posts db) = Some existing ->
  body_title b = post_title existing ->
  post_slug <$> find (id_is id) (posts (put_post user id b db).2)
    = Some (post_slug existing)
  /\ (forall post, (put_post user id b db).1 = Updated post ->
                   post_slug post = post_slug existing)
  /\ List.filter is_slug_probe (issued db (put_post user id b db).2) = [].
Proof.
  intros Hfind Htitle. unfold put_post, put_post_checked.
  destruct (postValidation b); simpl.
  2:{ rewrite Hfind, issued_refl. done. }
  rewrite Hfind.
  destruct (negb (bool_decide (user_role user = ADMIN))
            && negb (String.eqb (post_authorId existing) (user_id user))).
  { simpl. rewrite Hfind. split; [done|]. split; [done|].
    by rewrite (issued_app db _ [FindPostById id]). }
  rewrite Htitle, String.eqb_refl. simpl.
  unfold update, update_checked. simpl.
  destruct (existsb _ (posts db)).
  - simpl. rewrite Hfind. split; [done|]. split; [done|].
    rewrite (issued_app db _ [FindPostById id; UpdatePost id]); [done|].
    simpl. by rewrite <- app_assoc.
  - rewrite find_id_map by done. rewrite Hfind. simpl.
    rewrite find_id_map by done. rewrite Hfind. simpl.
    split; [done|]. split.
    + intros post [= <-]. done.
    + rewrite (issued_app db _ [FindPostById id; UpdatePost id]); [done|].
      simpl. by rewrite <- app_assoc.
Qed.

Lemma put_post_same_title_keeps_slug_witness :
  find (id_is "p1") (posts (table foo_rows)) = Some (row "p1" "Foo" "foo")
  /\ body_title (body "Foo") = post_title (row "p1" "Foo" "foo")
  /\ post_slug <$> find (id_is "p1") (posts (put_post admin "p1" (body "Foo") (table foo_rows)).2)
     = Some "foo".
Proof.
  split; [reflexivity|]. split; [reflexivity|].
  apply (put_post_same_title_keeps_slug admin "p1" (body "Foo") (table foo_rows)
           (row "p1" "Foo" "foo")); reflexivity.
Defined.


(** ** The server-side score *)

Section server_score.
Import Seo.

Lemma pointsAwarded_snoc cs kc :
  pointsAwarded (cs ++ [kc]) = pointsAwarded cs + awarded kc.
Proof.
  unfold pointsAwarded. induction cs as [|c cs IH]; simpl; [lia|].
  rewrite IH. lia.
Qed.

Lemma adds_trans n m a b c : adds n a b -> adds m b c -> adds (n + m) a c.
Proof. unfold adds. intros [? ?] [? ?]. lia. Qed.

Ltac step_cases :=
  repeat match goal with
         | |- context [if ?b then _ else _] => destruct b
         end;
  unfold adds; simpl; rewrite ?pointsAwarded_snoc; unfold awarded, weight; simpl;
  first [ left; lia | right; lia ].

Lemma analyzeTitle_adds title a :
  adds 0 a (analyzeTitle title a) \/ adds 20 a (analyzeTitle title a).
Proof. unfold analyzeTitle. step_cases. Qed.

Lemma analyzeMetaDescription_adds meta a :
  adds 0 a (analyzeMetaDescription meta a) \/ adds 20 a (analyzeMetaDescription meta a).
Proof. unfold analyzeMetaDescription. step_cases. Qed.

Lemma analyzeSlug_adds slug a :
  adds 0 a (analyzeSlug slug a) \/ adds 15 a (analyzeSlug slug a).
Proof. unfold analyzeSlug. step_cases. Qed.

Lemma checkWordCount_adds c a :
  adds 0 a (checkWordCount c a) \/ adds 15 a (checkWordCount c a).
Proof. unfold checkWordCount. step_cases. Qed.

Lemma checkHeadings_adds c a :
  adds 0 a (checkHeadings c a) \/ adds 10 a (checkHeadings c a).
Proof. unfold checkHeadings. step_cases. Qed.

Lemma checkImages_adds c a :
  adds 0 a (checkImages c a) \/ adds 10 a (checkImages c a).
Proof. unfold checkImages. step_cases. Qed.

Lemma checkLinks_adds c a :
  adds 0 a (checkLinks c a) \/ adds 5 a (checkLinks c a).
Proof. unfold checkLinks. step_cases. Qed.

Lemma analyzeContent_adds content a :
  exists n, n <= 15 + 10 + 10 + 5 /\ adds n a (analyzeContent content a).
Proof.
  unfold analyzeContent. destruct (negb (truthy content)).
  { exists 0. split; [lia|]. unfold adds. simpl. rewrite pointsAwarded_snoc. unfold awarded. simpl. lia. }
  set (c := default "" content).
  destruct (checkWordCount_adds c a) as [H1|H1];
  destruct (checkHeadings_adds c (checkWordCount c a)) as [H2|H2];
  destruct (checkImages_adds c (checkHeadings c (checkWordCount c a))) as [H3|H3];
  destruct (checkLinks_adds c (checkImages c (checkHeadings c (checkWordCount c a)))) as [H4|H4];
  pose proof (adds_trans _ _ _ _ _ (adds_trans _ _ _ _ _ (adds_trans _ _ _ _ _ H1 H2) H3) H4) as H;
  eexists; (split; [|exact H]); lia.
Qed.

Lemma analyzeChecks_adds content title meta slug :
  exists n, n <= 20 + 20 + 15 + 15 + 10 + 10 + 5
            /\ adds n initial (analyzeChecks content title meta slug).
Proof.
  unfold analyzeChecks.
  set (a1 := analyzeTitle title initial).
  set (a2 := analyzeMetaDescription meta a1).
  set (a3 := analyzeSlug slug a2).
  destruct (analyzeContent_adds content a3) as (n4 & Hn4 & H4).
  destruct (analyzeTitle_adds title initial) as [H1|H1];
  destruct (analyzeMetaDescription_adds meta a1) as [H2|H2];
  destruct (analyzeSlug_adds slug a2) as [H3|H3];
  pose proof (adds_trans _ _ _ _ _ (adds_trans _ _ _ _ _ (adds_trans _ _ _ _ _ H1 H2) H3) H4) as H;
  eexists; (split; [|exact H]); lia.
Qed.

Lemma analyzeKeywords_frame countMatches content title a a' :
  analyzeKeywords countMatches content title a = Some a' ->
  score a' = score a /\ checks a' = checks a.
Proof.
  unfold analyzeKeywords. destruct (truthy title && truthy content).
  - destruct (fold_left _ _ _); simpl; [|done]. by intros [= <-].
  - by intros [= <-].
Qed.

Lemma analyzeSEO_with_score countMatches content title meta slug a :
  analyzeSEO_with countMatches content title meta slug = Some a ->
  score a = Nat.min 100 (score (analyzeChecks content title meta slug))
  /\ checks a = checks (analyzeChecks content title meta slug).
Proof.
  unfold analyzeSEO_with.
  destruct (analyzeKeywords _ _ _ _) as [a'|] eqn:Hk; simpl; [|done].
  intros [= <-]. simpl. apply analyzeKeywords_frame in Hk as [-> ->]. done.
Qed.

(** The analysis returns as soon as no title word is rejected as a
    pattern. *)
Lemma fold_densityOfWord_Some countMatches content ws kd :
  Forall (fun w => is_Some (countMatches w (toLowerCase content))) ws ->
  is_Some (fold_left (densityOfWord countMatches content) ws (Some kd)).
Proof.
  intros Hall. revert kd. induction Hall as [|w ws [n Hn] _ IH]; intros kd; [by eexists|].
  simpl. unfold densityOfWord at 1. simpl. rewrite Hn.
  destruct (3 <? String.length w)%nat; apply IH.
Qed.

Lemma analyzeSEO_with_returns countMatches content title meta slug :
  Forall (fun w => is_Some (countMatches w (toLowerCase (default "" content))))
    (split_spaces (toLowerCase (default "" title))) ->
  is_Some (analyzeSEO_with countMatches content title meta slug).
Proof.
  intros Hall. unfold analyzeSEO_with, analyzeKeywords.
  destruct (truthy title && truthy content); [|by eexists].
  destruct (fold_densityOfWord_Some _ _ _ ∅ Hall) as [kd ->]. by eexists.
Qed.

End server_score.

(** C10.  Whenever the server-side [analyzeSEO] returns, the score is the
    sum of the points of its checks, at most 20+20+15+15+10+10+5 = 95: the
    cap at 100 never acts, the score lies between 0 and 95, and 100 is not
    reached. *)
Theorem analyzeSEO_score_at_most_95 countMatches content title meta slug a :
  Seo.analyzeSEO_with countMatches content title meta slug = Some a ->
  Seo.score a = Seo.score (Seo.analyzeChecks content title meta slug)
  /\ Seo.score a = Seo.pointsAwarded (Seo.checks a)
  /\ Seo.pointsAwarded (Seo.checks a) <= 20 + 20 + 15 + 15 + 10 + 10 + 5
  /\ 0 <= Seo.score a <= 95
  /\ Seo.score a <> 100.
Proof.
  intros [Hs Hc]%analyzeSEO_with_score.
  destruct (analyzeChecks_adds content title meta slug) as (n & Hn & Hscore & Hpoints).
  simpl in Hscore, Hpoints. rewrite Hc, Hs, Hpoints, Hscore. lia.
Qed.

Lemma analyzeSEO_score_at_most_95_witness :
  exists a,
    Seo.analyzeSEO_with Seo.countWord (Some good_content) (Some good_title)
      (Some good_meta) (Some "well-formed-post") = Some a
    /\ Seo.score a = 95
    /\ Seo.score a <> 100.
Proof.
  destruct (Seo.analyzeSEO_with Seo.countWord (Some good_content) (Some good_title)
              (Some good_meta) (Some "well-formed-post")) as [a|] eqn:Hrun.
  - exists a. split; [reflexivity|].
    destruct (analyzeSEO_score_at_most_95 _ _ _ _ _ _ Hrun) as (Hs & _ & _ & _ & Hne).
    split; [|exact Hne]. rewrite Hs. vm_compute. reflexivity.
  - vm_compute in Hrun. discriminate Hrun.
Defined.


(** ** The client-side score *)

Section client_score.
Import SEOAnalyzer.

Ltac score_cases :=
  repeat match goal with
         | |- context [if ?b then _ else _] => destruct b
         end;
  simpl; lia.

Lemma titleChecks_score title : check_score (titleChecks title) <= 10.
Proof. unfold titleChecks. score_cases. Qed.

Lemma metaChecks_score meta : check_score (metaChecks meta) <= 10.
Proof. unfold metaChecks. score_cases. Qed.

Lemma contentChecks_score n : check_score (contentChecks n) <= 10.
Proof. unfold contentChecks. score_cases. Qed.

Lemma slugChecks_score slug : check_score (slugChecks slug) <= 10.
Proof. unfold slugChecks. score_cases. Qed.

Lemma imageCheck_score img : check_score (imageCheck img) <= 10.
Proof. unfold imageCheck. score_cases. Qed.

Lemma tagsCheck_score tags : check_score (tagsCheck tags) <= 10.
Proof. unfold tagsCheck. score_cases. Qed.

Lemma headingsCheck_score content : check_score (headingsCheck content) <= 10.
Proof. unfold headingsCheck. score_cases. Qed.

(** The run, with the pushes carried out. *)
Lemma analyzeSEO_unfold title content meta slug img tags :
  analyzeSEO title content meta slug img tags
  = let cs := [titleChecks title; metaChecks meta;
               contentChecks (length (words content)); slugChecks slug;
               imageCheck img; tagsCheck tags; headingsCheck content] in
    {| wordCount := length (words content);
       readingTime := (length (words content) + 199) / 200;
       seoScore :=
         round_percent
           (0 + check_score (titleChecks title) + check_score (metaChecks meta)
            + check_score (contentChecks (length (words content)))
            + check_score (slugChecks slug) + check_score (imageCheck img)
            + check_score (tagsCheck tags) + check_score (headingsCheck content))
           70;
       checks := cs |}.
Proof. reflexivity. Qed.

Lemma round_percent_le total : total <= 70 -> round_percent total 70 <= 100.
Proof.
  intros H. unfold round_percent.
  apply Nat.lt_succ_r, Nat.Div0.div_lt_upper_bound. lia.
Qed.

End client_score.

(** Counterexample to C1 as stated.  On the server a post that passes
    every check, so that each check earns all its points, scores 95 and
    not 100. *)
Lemma analyzeSEO_full_marks_95 :
  Seo.score <$> Seo.analyzeSEO (Some good_content) (Some good_title)
                  (Some good_meta) (Some "well-formed-post")
  = Some 95
  /\ (fun a => map (fun kc => (kc.1, Seo.check_status kc.2)) (Seo.checks a))
       <$> Seo.analyzeSEO (Some good_content) (Some good_title)
             (Some good_meta) (Some "well-formed-post")
     = Some [("title", Seo.Success); ("metaDescription", Seo.Success);
             ("slug", Seo.Success); ("wordCount", Seo.Success);
             ("headings", Seo.Success); ("images", Seo.Success);
             ("links", Seo.Success)].
Proof. split; vm_compute; reflexivity. Qed.

(** C1, amended.  In the [SEOAnalyzer] component the final score is the
    sum of the scores of the checks over ten times their number, as a
    percentage rounded to the nearest integer; it is at most 100, and 100
    when every check has its 10 points.  On the server the score is not
    scaled: it is the sum of the points of the successful checks (20, 20,
    15, 15, 10, 10 and 5 by key), under a cap of 100. *)
Theorem final_score_formulas :
  (forall title content meta slug img tags,
     let r := SEOAnalyzer.analyzeSEO title content meta slug img tags in
     SEOAnalyzer.seoScore r
     = SEOAnalyzer.round_percent (SEOAnalyzer.pointsAwarded (SEOAnalyzer.checks r))
         (length (SEOAnalyzer.checks r) * 10)
     /\ SEOAnalyzer.seoScore r <= 100
     /\ (Forall (fun c => SEOAnalyzer.check_score c = 10) (SEOAnalyzer.checks r) ->
         SEOAnalyzer.seoScore r = 100))
  /\ (forall countMatches content title meta slug a,
        Seo.analyzeSEO_with countMatches content title meta slug = Some a ->
        Seo.score a = Nat.min 100 (Seo.pointsAwarded (Seo.checks a))).
Proof.
  split.
  - intros title content meta slug img tags r. subst r.
    rewrite analyzeSEO_unfold. cbv zeta. simpl SEOAnalyzer.seoScore.
    simpl SEOAnalyzer.checks. simpl length. simpl SEOAnalyzer.pointsAwarded.
    pose proof (titleChecks_score title). pose proof (metaChecks_score meta).
    pose proof (contentChecks_score (length (SEOAnalyzer.words content))).
    pose proof (slugChecks_score slug). pose proof (imageCheck_score img).
    pose proof (tagsCheck_score tags). pose proof (headingsCheck_score content).
    split; [f_equal; lia|]. split; [apply round_percent_le; lia|].
    intros Hall. repeat (apply Forall_cons in Hall as [? Hall]).
    replace (_ + _) with 70 by lia. reflexivity.
  - intros countMatches content title meta slug a [Hs Hc]%analyzeSEO_with_score.
    destruct (analyzeChecks_adds content title meta slug) as (n & Hn & Hscore & Hpoints).
    simpl in Hscore, Hpoints. rewrite Hc, Hs, Hpoints, Hscore. done.
Qed.

Lemma final_score_formulas_witness :
  Forall (fun c => SEOAnalyzer.check_score c = 10)
    (SEOAnalyzer.checks
       (SEOAnalyzer.analyzeSEO good_title good_content good_meta
          "well-formed-post" "cover.png" ["rocq"]))
  /\ SEOAnalyzer.seoScore
       (SEOAnalyzer.analyzeSEO good_title good_content good_meta
          "well-formed-post" "cover.png" ["rocq"]) = 100.
Proof.
  assert (H : Forall (fun c => SEOAnalyzer.check_score c = 10)
                (SEOAnalyzer.checks
                   (SEOAnalyzer.analyzeSEO good_title good_content good_meta
                      "well-formed-post" "cover.png" ["rocq"]))).
  { vm_compute. repeat constructor. }
  split; [exact H|].
  destruct final_score_formulas as [Hclient _].
  destruct (Hclient good_title good_content good_meta
              "well-formed-post" "cover.png" ["rocq"]) as (_ & _ & Hfull).
  exact (Hfull H).
Defined.

(** ** The word count *)

(** The component counts the words left once the tags are stripped, and
    its content check warns exactly below 300 of them. *)
Lemma SEOAnalyzer_content_check title content meta slug img tags :
  let r := SEOAnalyzer.analyzeSEO title content meta slug img tags in
  SEOAnalyzer.wordCount r
  = length (List.filter (fun w => negb (is_empty w)) (split_spaces (strip_tags content)))
  /\ SEOAnalyzer.contentChecks (SEOAnalyzer.wordCount r) ∈ SEOAnalyzer.checks r
  /\ (SEOAnalyzer.check_status (SEOAnalyzer.contentChecks (SEOAnalyzer.wordCount r))
        = SEOAnalyzer.Warning
      <-> SEOAnalyzer.wordCount r < 300).
Proof.
  intros r. subst r. rewrite analyzeSEO_unfold. cbv zeta. simpl.
  split; [reflexivity|]. split.
  - do 2 apply list_elem_of_further. apply list_elem_of_here.
  - unfold SEOAnalyzer.contentChecks.
    destruct (Nat.ltb_spec (length (SEOAnalyzer.words content)) 300); simpl;
      split; (done || lia).
Qed.

(** C4, at the failing input.  On a content of 150 line-break tags and no
    text, the words left after the tags are stripped are none, and the
    component warns that the content is too short; the server splits the
    content with its tags, counts 301 words and records a success. *)
Theorem server_wordCount_counts_markup :
  SEOAnalyzer.words markup_only = []
  /\ SEOAnalyzer.check_id (SEOAnalyzer.contentChecks (length (SEOAnalyzer.words markup_only)))
     = "content-short"
  /\ Seo.wordCount markup_only = 301
  /\ Seo.check_of "wordCount"
       <$> Seo.analyzeSEO (Some markup_only) (Some good_title) None None
     = Some (Some {| Seo.check_status := Seo.Success;
                     Seo.check_message := "Content has 301 words" |}).
Proof. repeat split; vm_compute; reflexivity. Qed.


(** ** Keyword density *)

Section density.
Import Seo.


End density.

(** *** Doubles *)

(** The division and the multiplication on pairs give the numbers that
    the binary64 operations of the library give, here for every count up
    to 30 over every total up to 80, and for some large lengths. *)
Lemma percent_is_binary64 :
  forallb (fun a => forallb (fun b => same_number (percent a b) (percent_float a b))
                      (Z.of_nat <$> seq 1 80))
    (Z.of_nat <$> seq 0 31) = true
  /\ forallb (fun ab => same_number (percent ab.1 ab.2) (percent_float ab.1 ab.2))
       [(23, 160); (123456789, 987654321); (1, 4294967295); (4294967295, 7);
        (99999999, 100000000); (1000000007, 1000003);
        (9007199254740991, 3); (4503599627370497, 9007199254740991)]%Z = true.
Proof. split; vm_compute; reflexivity. Qed.

(** *** Texts of words *)

Section texts.
Import Words.









(** *** The split of a text of words *)







(** *** The matches of a word in a text of words *)

























End texts.






(** ** The scenarios of the specification, on the server *)

Example minimal_post :
  (fun a => (Seo.score a, Seo.status a, Seo.issues a))
    <$> Seo.analyzeSEO (Some "") (Some "") None None
  = Some (0, Some Seo.Poor,
          ["Title is missing"; "Meta description is missing";
           "URL slug is missing"; "Content is missing"]).
Proof. vm_compute. reflexivity. Qed.

Example well_formed_post :
  (fun a => (Seo.score a, Seo.status a, Seo.issues a))
    <$> Seo.analyzeSEO (Some good_content) (Some good_title) (Some good_meta)
          (Some "well-formed-post")
  = Some (95, Some Seo.Excellent, []).
Proof. vm_compute. reflexivity. Qed.

Example slugify_samples :
  slugify "  Foo - Bar & Baz  " = "foo-bar-and-baz"
  /\ slugify "a.b" = "ab"
  /\ slugify "Foo" = "foo".
Proof. repeat split; reflexivity. Qed.

(** ** Creating, updating and deleting rows *)

Section rows.
Import PostRoutes.

Lemma find_slug_None_inv l s : find (slug_is s) l = None -> s ∉ map post_slug l.
Proof.
  intros Hfind Hs. apply find_slug_elem in Hs as [p Hp]. congruence.
Qed.

Lemma find_id_Some l i p : find (id_is i) l = Some p -> p ∈ l /\ post_id p = i.
Proof.
  intros [Hin Hi]%find_some. split; [by apply list_elem_of_In|].
  unfold id_is in Hi. by apply String.eqb_eq in Hi.
Qed.

Lemma find_id_None l i : find (id_is i) l = None -> i ∉ map post_id l.
Proof.
  induction l as [|q l IH]; simpl; [intros _ ?%elem_of_nil; done|].
  unfold id_is at 1. destruct (String.eqb_spec (post_id q) i); [done|].
  intros Hl [?|?]%elem_of_cons; [congruence|by apply IH].
Qed.

Lemma existsb_false_iff {A} (f : A -> bool) l :
  existsb f l = false <-> forall x, x ∈ l -> f x = false.
Proof.
  induction l as [|y l IH]; simpl.
  - split; [intros _ x ?%elem_of_nil; done|done].
  - rewrite orb_false_iff, IH. split.
    + intros [Hy Hl] x [->|?]%elem_of_cons; auto.
    + intros H. split; [apply H; left|intros x ?; apply H; by right].
Qed.

(** Two rows of a table with the unique index that have the same slug
    are one row. *)
Lemma same_slug_same_row l p q :
  NoDup (map post_slug l) -> p ∈ l -> q ∈ l -> post_slug p = post_slug q -> p = q.
Proof.
  intros Hnd Hp Hq Heq.
  pose proof (find_slug_unique l p Hnd Hp) as H1.
  pose proof (find_slug_unique l q Hnd Hq) as H2.
  rewrite Heq in H1. congruence.
Qed.

(** The slug that the loop returns is held by no row but, at most, the
    excluded one. *)
Lemma generateUniqueSlug_free title postId db :
  exists slug db',
    generateUniqueSlug title postId db = (Some slug, db')
    /\ posts db' = posts db
    /\ (exists k, slug = candidate (slugify title) k)
    /\ slug_available (find (slug_is slug) (posts db)) postId = true.
Proof.
  destruct (probe_enough_fuel (S (length (posts db))) title postId db)
    as (k & hit & db' & _ & Hgen & _ & _ & _ & _ & Hav & Hposts & _); [lia|].
  exists (candidate (slugify title) k), db'. eauto 10.
Qed.

Lemma schema_ok_snoc db post :
  schema_ok db ->
  post_id post <> "" ->
  post_id post ∉ map post_id (posts db) ->
  post_slug post ∉ map post_slug (posts db) ->
  schema_ok {| posts := posts db ++ [post]; queries := queries db |}.
Proof.
  intros (Hids & Hslugs & Hne) Hid Hfresh Hslug. unfold schema_ok. simpl.
  rewrite !map_app. simpl. repeat split.
  - apply NoDup_app. split; [done|]. split; [|apply NoDup_singleton].
    intros x Hx ->%list_elem_of_singleton. done.
  - apply NoDup_app. split; [done|]. split; [|apply NoDup_singleton].
    intros x Hx ->%list_elem_of_singleton. done.
  - apply Forall_app. split; [done|]. by constructor.
Qed.

End rows.

Section post_routes.
Import PostRoutes.

Lemma available_None_free db slug :
  slug_available (find (slug_is slug) (posts db)) None = true ->
  slug ∉ map post_slug (posts db).
Proof.
  intros Hav. apply find_slug_None_inv.
  destruct (find (slug_is slug) (posts db)); [done|done].
Qed.

(** X1.  For a valid body and a fresh key, on a table that meets the
    schema, the slug that [POST /api/posts] allocates is held by no row,
    so that the unique index on [slug] never rejects the creation.  When
    the table accepts the other columns of the row, the row is created
    with that slug, the other rows stay as they are, and the table meets
    the schema afterwards; when it rejects them, the handler answers with
    its error and the table is as before. *)
Theorem create_post_creates (accepted : bool) user newId b db :
  schema_ok db ->
  postValidation b = true ->
  newId <> "" ->
  (newId ∉ map post_id (posts db)) ->
  exists slug db1,
    generateUniqueSlug (body_title b) None db = (Some slug, db1)
    /\ (slug ∉ map post_slug (posts db))
    /\ (exists k, slug = candidate (slugify (body_title b)) k)
    /\ if accepted
       then exists db',
              create_post_checked accepted user newId b db
                = (Created (new_post newId b slug (user_id user)), db')
              /\ posts db' = (posts db ++ [new_post newId b slug (user_id user)])%list
              /\ schema_ok db'
       else exists db',
              create_post_checked accepted user newId b db = (CreatePostError, db')
              /\ posts db' = posts db.
Proof.
  intros Hok Hvalid Hne Hfresh.
  destruct (generateUniqueSlug_free (body_title b) None db)
    as (slug & db1 & Hgen & Hposts & Hk & Hav).
  apply available_None_free in Hav.
  exists slug, db1. split; [done|]. split; [done|]. split; [done|].
  unfold create_post_checked. rewrite Hvalid, Hgen. simpl.
  unfold create_checked. destruct accepted; simpl; [|by eexists].
  rewrite Hposts.
  assert (existsb (fun p => slug_is slug p || id_is newId p) (posts db) = false) as ->.
  { apply existsb_false_iff. intros p Hp. apply orb_false_iff. split.
    - unfold slug_is. apply String.eqb_neq. intros <-. apply Hav.
      by apply list_elem_of_fmap_2.
    - unfold id_is. apply String.eqb_neq. intros <-. apply Hfresh.
      by apply list_elem_of_fmap_2. }
  eexists. split; [reflexivity|]. simpl. split; [done|].
  assert (schema_ok {| posts := posts db; queries := queries db1 |}) as Hok'.
  { exact Hok. }
  apply (schema_ok_snoc {| posts := posts db; queries := queries db1 |}); done.
Qed.

(** ** [PUT /api/posts/:id] and [DELETE /api/posts/:id] *)

Lemma map_update_key {B} (f : Post -> B) id g l :
  (forall p, f (g p) = f p) ->
  map f (map (fun p => if id_is id p then g p else p) l) = map f l.
Proof.
  intros Hg. induction l as [|q l IH]; [done|]. simpl.
  rewrite IH. by destruct (id_is id q); rewrite ?Hg.
Qed.

(** Replacing the slug of the rows with one key by a slug that no other
    row holds keeps the slugs distinct. *)
Lemma NoDup_slugs_update id b slug l :
  NoDup (map post_id l) ->
  NoDup (map post_slug l) ->
  existsb (fun p => slug_is slug p && negb (id_is id p)) l = false ->
  NoDup (map post_slug (map (fun p => if id_is id p then set_fields b slug p else p) l)).
Proof.
  intros Hids Hslugs Hfree. rewrite existsb_false_iff in Hfree.
  induction l as [|q l IH]; [constructor|].
  simpl in *. apply NoDup_cons in Hids as [Hq Hids].
  apply NoDup_cons in Hslugs as [Hqs Hslugs].
  assert (Hfree' : forall x, x ∈ l -> slug_is slug x && negb (id_is id x) = false).
  { intros x Hx. apply Hfree. by right. }
  specialize (IH Hids Hslugs Hfree').
  apply NoDup_cons. split; [|done].
  rewrite list_elem_of_fmap. intros (y & Hy & Hin).
  apply list_elem_of_fmap in Hin as (x & -> & Hx).
  destruct (id_is id q) eqn:Hidq.
  - simpl in Hy. unfold id_is in Hidq. apply String.eqb_eq in Hidq.
    destruct (id_is id x) eqn:Hidx.
    + unfold id_is in Hidx. apply String.eqb_eq in Hidx.
      apply Hq. rewrite Hidq, <- Hidx. by apply list_elem_of_fmap_2.
    + specialize (Hfree' x Hx). rewrite Hidx in Hfree'. simpl in Hfree'.
      rewrite andb_true_r in Hfree'. unfold slug_is in Hfree'.
      apply String.eqb_neq in Hfree'. congruence.
  - destruct (id_is id x) eqn:Hidx.
    + simpl in Hy. specialize (Hfree q (list_elem_of_here _ _)).
      rewrite Hidq in Hfree. simpl in Hfree. rewrite andb_true_r in Hfree.
      unfold slug_is in Hfree. apply String.eqb_neq in Hfree. congruence.
    + apply Hqs. rewrite Hy. by apply list_elem_of_fmap_2.
Qed.

(** With the unique index, the slug that the update step of the handler
    holds is held by no other row. *)
Lemma slug_free_for_update id slug db :
  NoDup (map post_slug (posts db)) ->
  slug_available (find (slug_is slug) (posts db)) (Some id) = true ->
  existsb (fun p => slug_is slug p && negb (id_is id p)) (posts db) = false.
Proof.
  intros Hnd Hav. apply existsb_false_iff. intros x Hx.
  destruct (slug_is slug x) eqn:Hs; [|done]. simpl.
  unfold slug_is in Hs. apply String.eqb_eq in Hs. subst slug.
  rewrite (find_slug_unique _ _ Hnd Hx) in Hav. simpl in Hav.
  apply andb_prop in Hav as [_ Hid]. apply bool_decide_eq_true in Hid.
  injection Hid as Hid. unfold id_is. by rewrite Hid, String.eqb_refl.
Qed.

(** X3.  On a table that meets the schema, for a valid [PUT] of an
    existing row by an administrator or by its author, the slug that the
    handler holds or allocates never runs into the unique index.  When
    the table accepts the other columns, the row is updated: it keeps its
    key and its author and takes the title of the body, it keeps its slug
    when the title is the one it had and gets a candidate of the new
    title otherwise, a column whose field the body leaves out keeps its
    value, and the table still meets the schema.  When the
    table rejects them, the handler answers with its error and the rows
    are as before. *)
Theorem put_post_updates (accepted : bool) user id b db existing :
  schema_ok db ->
  postValidation b = true ->
  find (id_is id) (posts db) = Some existing ->
  user_role user = ADMIN \/ post_authorId existing = user_id user ->
  if accepted
  then exists post db',
         put_post_checked accepted user id b db = (Updated post, db')
         /\ find (id_is id) (posts db') = Some post
         /\ post_id post = id
         /\ post_authorId post = post_authorId existing
         /\ post_title post = body_title b
         /\ (body_title b = post_title existing -> post_slug post = post_slug existing)
         /\ (body_title b <> post_title existing ->
             exists k, post_slug post = candidate (slugify (body_title b)) k)
         /\ (body_excerpt b = None -> post_excerpt post = post_excerpt existing)
         /\ (body_metaTitle b = None -> post_metaTitle post = post_metaTitle existing)
         /\ (body_metaDescription b = None ->
             post_metaDescription post = post_metaDescription existing)
         /\ schema_ok db'
  else exists db',
         put_post_checked accepted user id b db = (UpdatePostError, db')
         /\ posts db' = posts db.
Proof.
  intros (Hids & Hslugs & Hne) Hvalid Hfind Hperm.
  pose proof (find_id_Some _ _ _ Hfind) as [Hin Hid].
  unfold put_post_checked. rewrite Hvalid. simpl. rewrite Hfind.
  assert (negb (bool_decide (user_role user = ADMIN))
          && negb (String.eqb (post_authorId existing) (user_id user)) = false) as ->.
  { destruct Hperm as [Hadmin|Hauthor].
    - by rewrite bool_decide_eq_true_2.
    - rewrite Hauthor, String.eqb_refl. apply andb_false_r. }
  set (db0 := logged (FindPostById id) db).
  destruct accepted.
  2:{ destruct (String.eqb_spec (body_title b) (post_title existing)) as [Hsame|Hchanged];
        simpl.
      - by eexists.
      - destruct (generateUniqueSlug_free (body_title b) (Some id) db0)
          as (slug & db1 & -> & Hposts & _). simpl. by eexists. }
  assert (Hgoal : forall slug db1,
            posts db1 = posts db ->
            slug_available (find (slug_is slug) (posts db)) (Some id) = true ->
            exists post db',
              match update_checked true id b slug db1 with
              | (Some post, db) => (Updated post, db)
              | (None, db) => (UpdatePostError, db)
              end = (Updated post, db')
              /\ find (id_is id) (posts db') = Some post
              /\ post = set_fields b slug existing
              /\ schema_ok db').
  { intros slug db1 Hposts Hav. unfold update_checked. simpl. rewrite Hposts.
    pose proof (slug_free_for_update id slug db Hslugs Hav) as Hfree.
    rewrite Hfree. rewrite find_id_map by done. rewrite Hfind. simpl.
    eexists _, _. split; [reflexivity|]. simpl.
    rewrite find_id_map by done. rewrite Hfind. simpl.
    split; [done|]. split; [done|]. unfold schema_ok. simpl.
    split; [by rewrite map_update_key|].
    split; [by apply NoDup_slugs_update|].
    apply Forall_forall. intros x [y [-> Hy]]%list_elem_of_fmap.
    rewrite Forall_forall in Hne. specialize (Hne y Hy).
    by destruct (id_is id y). }
  destruct (String.eqb_spec (body_title b) (post_title existing)) as [Hsame|Hchanged]; simpl.
  - destruct (Hgoal (post_slug existing) db0) as (post & db' & Hrun & Hf & -> & Hok').
    { done. }
    { rewrite (find_slug_unique _ _ Hslugs Hin). simpl.
      rewrite Hid, bool_decide_eq_true_2 by done.
      rewrite Forall_forall in Hne. specialize (Hne _ Hin). rewrite Hid in Hne.
      by destruct id. }
    exists (set_fields b (post_slug existing) existing), db'. rewrite Hrun.
    simpl. split; [done|]. split; [done|]. split; [done|]. split; [done|].
    split; [done|]. split; [done|]. split; [done|]. split; [by intros ->|].
    split; [by intros ->|]. split; [by intros ->|exact Hok'].
  - destruct (generateUniqueSlug_free (body_title b) (Some id) db0)
      as (slug & db1 & -> & Hposts & Hk & Hav).
    destruct (Hgoal slug db1) as (post & db' & Hrun & Hf & -> & Hok'); [done..|].
    exists (set_fields b slug existing), db'. rewrite Hrun.
    simpl. split; [done|]. split; [done|]. split; [done|]. split; [done|].
    split; [done|]. split; [done|]. split; [done|]. split; [by intros ->|].
    split; [by intros ->|]. split; [by intros ->|exact Hok'].
Qed.

Lemma put_post_updates_witness :
  schema_ok (table foo_rows)
  /\ postValidation (body "Bar") = true
  /\ find (id_is "p1") (posts (table foo_rows)) = Some (row "p1" "Foo" "foo")
  /\ exists post db',
       put_post_checked true admin "p1" (body "Bar") (table foo_rows) = (Updated post, db')
       /\ post_title post = "Bar"
       /\ post_slug post = "bar"
       /\ schema_ok db'.
Proof.
  split; [exact schema_ok_foo_rows|]. split; [reflexivity|]. split; [reflexivity|].
  destruct (put_post_updates true admin "p1" (body "Bar") (table foo_rows)
              (row "p1" "Foo" "foo"))
    as (post & db' & Hrun & _ & _ & _ & Ht & _ & _ & _ & _ & _ & Hok).
  - exact schema_ok_foo_rows.
  - reflexivity.
  - reflexivity.
  - left. reflexivity.
  - exists post, db'. split; [exact Hrun|]. split; [exact Ht|]. split; [|exact Hok].
    vm_compute in Hrun. by injection Hrun as <- _.
Defined.

Lemma create_post_creates_witness :
  schema_ok (table foo_rows)
  /\ postValidation (body "Foo") = true
  /\ "p4" <> ""
  /\ ("p4" ∉ map post_id (posts (table foo_rows)))
  /\ exists slug db',
       create_post_checked true admin "p4" (body "Foo") (table foo_rows)
         = (Created (PostRoutes.new_post "p4" (body "Foo") slug (user_id admin)), db')
       /\ (slug ∉ map post_slug (posts (table foo_rows)))
       /\ schema_ok db'.
Proof.
  assert (H4 : "p4" ∉ map post_id (posts (table foo_rows))) by by_decision.
  split; [exact schema_ok_foo_rows|]. split; [reflexivity|].
  split; [discriminate|]. split; [exact H4|].
  destruct (create_post_creates true admin "p4" (body "Foo") (table foo_rows))
    as (slug & db1 & _ & Hfree & _ & db' & Hrun & _ & Hok).
  - exact schema_ok_foo_rows.
  - reflexivity.
  - discriminate.
  - exact H4.
  - exists slug, db'. split; [exact Hrun|]. split; [exact Hfree|exact Hok].
Defined.

Lemma filter_update_others id g l :
  (forall p, post_id (g p) = post_id p) ->
  List.filter (fun p => negb (id_is id p))
    (map (fun p => if id_is id p then g p else p) l)
  = List.filter (fun p => negb (id_is id p)) l.
Proof.
  intros Hg. induction l as [|q l IH]; [done|]. simpl.
  destruct (id_is id q) eqn:Hq; simpl.
  - unfold id_is at 1. rewrite Hg. fold (id_is id q). rewrite Hq. simpl. exact IH.
  - rewrite Hq. simpl. by rewrite IH.
Qed.

Lemma find_filter_others id l :
  find (id_is id) (List.filter (fun p => negb (id_is id p)) l) = None.
Proof.
  induction l as [|q l IH]; [done|]. simpl.
  destruct (id_is id q) eqn:Hq; simpl; [done|]. by rewrite Hq.
Qed.

Lemma filter_sublist {A} (f : A -> bool) l : List.filter f l `sublist_of` l.
Proof.
  induction l as [|q l IH]; [done|]. simpl. destruct (f q); by constructor.
Qed.

(** X4.  Whatever it answers, [PUT /api/posts/:id] adds and removes no row,
    changes no key and no author, and leaves every row with another key as
    it is. *)
Theorem put_post_frame user id b db :
  map post_id (posts (put_post user id b db).2) = map post_id (posts db)
  /\ map post_authorId (posts (put_post user id b db).2) = map post_authorId (posts db)
  /\ List.filter (fun p => negb (id_is id p)) (posts (put_post user id b db).2)
     = List.filter (fun p => negb (id_is id p)) (posts db).
Proof.
  assert (Hupd : forall slug db1,
            posts db1 = posts db ->
            let db' := (match update id b slug db1 with
                        | (Some post, db) => (Updated post, db)
                        | (None, db) => (UpdatePostError, db)
                        end).2 in
            map post_id (posts db') = map post_id (posts db)
            /\ map post_authorId (posts db') = map post_authorId (posts db)
            /\ List.filter (fun p => negb (id_is id p)) (posts db')
               = List.filter (fun p => negb (id_is id p)) (posts db)).
  { intros slug db1 Hposts. unfold update, update_checked. simpl. rewrite Hposts.
    destruct (existsb _ (posts db)); simpl; [by rewrite Hposts|].
    assert (Hrows : map post_id (map (fun p => if id_is id p then set_fields b slug p else p) (posts db))
                    = map post_id (posts db)
                    /\ map post_authorId (map (fun p => if id_is id p then set_fields b slug p else p) (posts db))
                       = map post_authorId (posts db)
                    /\ List.filter (fun p => negb (id_is id p))
                         (map (fun p => if id_is id p then set_fields b slug p else p) (posts db))
                       = List.filter (fun p => negb (id_is id p)) (posts db)).
    { split; [by apply map_update_key|]. split; [by apply map_update_key|].
      by apply filter_update_others. }
    destruct (find _ _); simpl; exact Hrows. }
  unfold put_post, put_post_checked. destruct (postValidation b); simpl; [|done].
  destruct (find (id_is id) (posts db)) as [existing|]; simpl; [|done].
  destruct (_ && _); simpl; [done|].
  destruct (negb (String.eqb (body_title b) (post_title existing))).
  - destruct (generateUniqueSlug_free (body_title b) (Some id) (logged (FindPostById id) db))
      as (slug & db1 & -> & Hposts & _ & _).
    apply Hupd. exact Hposts.
  - apply (Hupd (post_slug existing) (logged (FindPostById id) db)). done.
Qed.

(** X5.  Only an administrator or the author of the row changes a row: when
    the table differs after [PUT /api/posts/:id] or after
    [DELETE /api/posts/:id], the row existed and the user was one of the
    two. *)
Theorem rows_change_only_when_allowed user id b db :
  (posts (put_post user id b db).2 <> posts db
   \/ posts (delete_post user id db).2 <> posts db) ->
  exists existing,
    find (id_is id) (posts db) = Some existing
    /\ (user_role user = ADMIN \/ post_authorId existing = user_id user).
Proof.
  assert (Hperm : forall existing,
            negb (bool_decide (user_role user = ADMIN))
            && negb (String.eqb (post_authorId existing) (user_id user)) = false ->
            user_role user = ADMIN \/ post_authorId existing = user_id user).
  { intros existing [H|H]%andb_false_iff.
    - left. apply negb_false_iff, bool_decide_eq_true in H. done.
    - right. apply negb_false_iff, String.eqb_eq in H. done. }
  intros [Hput|Hdel].
  - unfold put_post, put_post_checked in Hput. destruct (postValidation b); simpl in Hput; [|done].
    destruct (find (id_is id) (posts db)) as [existing|] eqn:Hfind; simpl in Hput; [|done].
    destruct (_ && _) eqn:Hp; simpl in Hput; [done|]. eauto.
  - unfold delete_post in Hdel. simpl in Hdel.
    destruct (find (id_is id) (posts db)) as [existing|] eqn:Hfind; simpl in Hdel; [|done].
    destruct (_ && _) eqn:Hp; simpl in Hdel; [done|]. eauto.
Qed.

Lemma rows_change_only_when_allowed_witness :
  posts (delete_post admin "p1" (table foo_rows)).2 <> posts (table foo_rows)
  /\ exists existing,
       find (id_is "p1") (posts (table foo_rows)) = Some existing
       /\ (user_role admin = ADMIN \/ post_authorId existing = user_id admin).
Proof.
  assert (H : posts (delete_post admin "p1" (table foo_rows)).2 <> posts (table foo_rows)).
  { vm_compute. discriminate. }
  split; [exact H|].
  apply (rows_change_only_when_allowed admin "p1" (body "Foo") (table foo_rows)).
  right. exact H.
Defined.

(** X6.  A [DELETE] of an existing row by an administrator or by its author
    removes the row and nothing else: the key is no longer found, the rows
    with other keys are the rows of before, in their order, and the table
    still meets the schema if it did. *)
Theorem delete_post_removes user id db existing :
  find (id_is id) (posts db) = Some existing ->
  user_role user = ADMIN \/ post_authorId existing = user_id user ->
  exists db',
    delete_post user id db = (Deleted, db')
    /\ find (id_is id) (posts db') = None
    /\ posts db' = List.filter (fun p => negb (id_is id p)) (posts db)
    /\ (schema_ok db -> schema_ok db').
Proof.
  intros Hfind Hperm. unfold delete_post. simpl. rewrite Hfind.
  assert (negb (bool_decide (user_role user = ADMIN))
          && negb (String.eqb (post_authorId existing) (user_id user)) = false) as ->.
  { destruct Hperm as [Hadmin|Hauthor].
    - by rewrite bool_decide_eq_true_2.
    - rewrite Hauthor, String.eqb_refl. apply andb_false_r. }
  eexists. split; [reflexivity|]. simpl. split; [|split; [done|]].
  - apply find_filter_others.
  - intros (Hids & Hslugs & Hne). unfold schema_ok. simpl.
    pose proof (filter_sublist (fun p => negb (id_is id p)) (posts db)) as Hsub.
    split; [|split].
    + eapply sublist_NoDup; [exact Hids|by apply (fmap_sublist post_id)].
    + eapply sublist_NoDup; [exact Hslugs|by apply (fmap_sublist post_slug)].
    + rewrite Forall_forall in Hne. apply Forall_forall. intros x Hx.
      apply Hne. by eapply elem_of_sublist.
Qed.

Lemma delete_post_removes_witness :
  find (id_is "p2") (posts (table foo_rows)) = Some (row "p2" "Foo" "foo-1")
  /\ exists db',
       delete_post admin "p2" (table foo_rows) = (Deleted, db')
       /\ map post_slug (posts db') = ["foo"; "foo-2"].
Proof.
  split; [reflexivity|].
  destruct (delete_post_removes admin "p2" (table foo_rows) (row "p2" "Foo" "foo-1"))
    as (db' & Hrun & _ & Hposts & _).
  - reflexivity.
  - left. reflexivity.
  - exists db'. split; [exact Hrun|]. rewrite Hposts. reflexivity.
Defined.

(** ** Two posts with one title *)

Lemma create_post_run user newId b db slug db1 :
  postValidation b = true ->
  generateUniqueSlug (body_title b) None db = (Some slug, db1) ->
  posts db1 = posts db ->
  slug ∉ map post_slug (posts db) ->
  newId ∉ map post_id (posts db) ->
  create_post user newId b db
  = (Created (new_post newId b slug (user_id user)),
     {| posts := posts db ++ [new_post newId b slug (user_id user)];
        queries := queries db1 |}).
Proof.
  intros Hvalid Hgen Hposts Hslug Hid. unfold create_post, create_post_checked.
  rewrite Hvalid, Hgen. simpl. unfold create, create_checked. simpl. rewrite Hposts.
  assert (existsb (fun p => slug_is slug p || id_is newId p) (posts db) = false) as ->; [|done].
  apply existsb_false_iff. intros p Hp. apply orb_false_iff. split.
  - unfold slug_is. apply String.eqb_neq. intros <-. apply Hslug.
    by apply list_elem_of_fmap_2.
  - unfold id_is. apply String.eqb_neq. intros <-. apply Hid.
    by apply list_elem_of_fmap_2.
Qed.

Lemma find_slug_snoc l p s :
  s ∉ map post_slug l ->
  find (slug_is s) (l ++ [p]) = if slug_is s p then Some p else None.
Proof.
  intros Hs. induction l as [|q l IH]; [done|]. simpl in *.
  apply not_elem_of_cons in Hs as [Hq Hl]. unfold slug_is at 1.
  destruct (String.eqb_spec (post_slug q) s); [congruence|auto].
Qed.

(** X2.  Two posts created one after the other with the same title, on a
    table where neither the base slug of the title nor the base with the
    suffix -1 is held, get the base slug and the base with -1. *)
Theorem create_post_twice user1 user2 id1 id2 b db :
  postValidation b = true ->
  (slugify (body_title b) ∉ map post_slug (posts db)) ->
  (slugify (body_title b) +:+ "-1" ∉ map post_slug (posts db)) ->
  (id1 ∉ map post_id (posts db)) ->
  (id2 ∉ map post_id (posts db)) ->
  id1 <> id2 ->
  exists p1 db1 p2 db2,
    create_post user1 id1 b db = (Created p1, db1)
    /\ create_post user2 id2 b db1 = (Created p2, db2)
    /\ post_slug p1 = slugify (body_title b)
    /\ post_slug p2 = slugify (body_title b) +:+ "-1"
    /\ posts db2 = (posts db ++ [p1; p2])%list.
Proof.
  intros Hvalid Hbase Hnext Hid1 Hid2 Hne.
  set (base := slugify (body_title b)) in *.
  set (p1 := new_post id1 b base (user_id user1)).
  set (p2 := new_post id2 b (base +:+ "-1") (user_id user2)).
  assert (Hgen1 : generateUniqueSlug (body_title b) None db
                  = (Some base, logged (FindPostBySlug base) db)).
  { unfold generateUniqueSlug. fold base. rewrite probe_step_free; [done|].
    by rewrite find_slug_None. }
  pose proof (create_post_run user1 id1 b db base _ Hvalid Hgen1 eq_refl Hbase Hid1) as Hrun1.
  fold p1 in Hrun1. simpl in Hrun1.
  set (db1 := {| posts := posts db ++ [p1];
                 queries := queries db ++ [FindPostBySlug base] |}) in *.
  assert (Hneq : base +:+ "-1" <> base).
  { intros H. apply (f_equal String.length) in H. rewrite length_app_string in H.
    simpl in H. lia. }
  assert (Hgen2 : generateUniqueSlug (body_title b) None db1
                  = (Some (base +:+ "-1"),
                     logged (FindPostBySlug (base +:+ "-1"))
                       (logged (FindPostBySlug base) db1))).
  { unfold generateUniqueSlug. fold base. simpl posts. rewrite length_app. simpl length.
    replace (S (length (posts db) + 1)) with (S (S (length (posts db)))) by lia.
    rewrite probe_step_taken.
    2:{ simpl posts. rewrite find_slug_snoc by done.
        unfold slug_is. simpl. by rewrite String.eqb_refl. }
    change (base +:+ "-" +:+ pretty 1) with (base +:+ "-1").
    rewrite probe_step_free; [done|].
    simpl posts. rewrite find_slug_snoc by done.
    unfold slug_is. simpl. apply String.eqb_neq in Hneq.
    rewrite String.eqb_sym in Hneq. by rewrite Hneq. }
  pose proof (create_post_run user2 id2 b db1 (base +:+ "-1") _ Hvalid Hgen2 eq_refl) as Hrun2.
  fold p2 in Hrun2.
  exists p1, db1, p2. eexists. split; [exact Hrun1|]. split.
  - apply Hrun2.
    + simpl. rewrite map_app. simpl. intros [?|Hin]%elem_of_app; [done|].
      apply list_elem_of_singleton in Hin. done.
    + simpl. rewrite map_app. simpl. intros [?|Hin]%elem_of_app; [done|].
      apply list_elem_of_singleton in Hin. congruence.
  - simpl. split; [done|]. split; [done|]. by rewrite <- app_assoc.
Qed.

Lemma create_post_twice_witness :
  postValidation (body "Hello World") = true
  /\ exists p1 db1 p2 db2,
       create_post admin "a" (body "Hello World") (table foo_rows) = (Created p1, db1)
       /\ create_post admin "b" (body "Hello World") db1 = (Created p2, db2)
       /\ post_slug p1 = "hello-world"
       /\ post_slug p2 = "hello-world-1".
Proof.
  split; [reflexivity|].
  destruct (create_post_twice admin admin "a" "b" (body "Hello World") (table foo_rows))
    as (p1 & db1 & p2 & db2 & H1 & H2 & Hs1 & Hs2 & _).
  - reflexivity.
  - by_decision.
  - by_decision.
  - by_decision.
  - by_decision.
  - discriminate.
  - exists p1, db1, p2, db2. split; [exact H1|]. split; [exact H2|].
    split; [exact Hs1|exact Hs2].
Defined.

End post_routes.

(** ** The slug route *)

Section slug_route.
Import SeoRoutes.

Lemma filter_chars_app p s t :
  filter_chars p (s +:+ t) = filter_chars p s +:+ filter_chars p t.
Proof.
  induction s as [|c s IH]; [done|]. rewrite app_cons. simpl.
  destruct (p c); [by rewrite app_cons, IH|done].
Qed.

Lemma filter_chars_filter p q s :
  (forall c, p c = true -> q c = true) ->
  filter_chars p (filter_chars q s) = filter_chars p s.
Proof.
  intros Hpq. induction s as [|c s IH]; [done|]. simpl.
  destruct (q c) eqn:Hq; simpl.
  - destruct (p c); by rewrite IH.
  - destruct (p c) eqn:Hp; [|done]. apply Hpq in Hp. congruence.
Qed.

Lemma strict_kept_by_remove c : kept_by_strict c = true -> kept_by_remove c = true.
Proof. by_cases_on c. Qed.

Lemma strict_not_removed c : kept_by_strict c = true -> negb (removed_by_option c) = true.
Proof. by_cases_on c. Qed.

(** Under [strict] the characters that a [reduce] step contributes are
    the same with the default pattern and with the pattern of the
    route. *)
Lemma strict_appendChar ch :
  filter_chars kept_by_strict (appendChar_removing ch)
  = filter_chars kept_by_strict (appendChar ch).
Proof.
  unfold appendChar_removing, appendChar.
  rewrite !filter_chars_filter; auto using strict_kept_by_remove, strict_not_removed.
Qed.

Lemma strict_reduce l acc acc' :
  filter_chars kept_by_strict acc = filter_chars kept_by_strict acc' ->
  filter_chars kept_by_strict
    (fold_left (fun result ch => result +:+ appendChar_removing ch) l acc)
  = filter_chars kept_by_strict
      (fold_left (fun result ch => result +:+ appendChar ch) l acc').
Proof.
  revert acc acc'. induction l as [|ch l IH]; intros acc acc' Hacc; [done|].
  simpl. apply IH. by rewrite !filter_chars_app, Hacc, strict_appendChar.
Qed.

Lemma slugify_removing_slugify title : slugify_removing title = slugify title.
Proof.
  unfold slugify_removing, slugify. by rewrite (strict_reduce _ "" "").
Qed.

End slug_route.

(** X7.  [POST /api/seo/generate-slug] answers with the slug that
    [generateUniqueSlug] of the posts routes returns for the same title,
    post id and table, after the same lookups; [isUnique] tells whether
    that slug is the base slug of the title, which is the case exactly
    when no row holds the base slug or the post itself does. *)
Theorem generate_slug_agrees title postId db :
  title <> "" ->
  exists slug db',
    generateUniqueSlug title postId db = (Some slug, db')
    /\ SeoRoutes.generate_slug (Some title) postId db
       = (SeoRoutes.SlugOk slug (bool_decide (slug = slugify title)), db')
    /\ bool_decide (slug = slugify title)
       = slug_available (find (slug_is (slugify title)) (posts db)) postId.
Proof.
  intros Hne.
  destruct (probe_enough_fuel (S (length (posts db))) title postId db)
    as (k & hit & db' & Hrun & Hgen & _ & _ & _ & _ & Hav & _ & _); [lia|].
  exists (candidate (slugify title) k), db'. split; [done|].
  assert (Hk : bool_decide (candidate (slugify title) k = slugify title) = (S k =? 1)%nat).
  { destruct k as [|k]; [by rewrite bool_decide_eq_true_2|].
    rewrite bool_decide_eq_false_2; [done|].
    intros H. by apply (candidate_inj _ (S k) 0) in H. }
  split.
  - unfold SeoRoutes.generate_slug.
    replace (truthy (Some title)) with true by (by destruct title).
    change (default "" (Some title)) with title. cbv beta iota zeta delta [negb].
    rewrite slugify_removing_slugify, Hrun. by rewrite Hk.
  - rewrite Hk.
    destruct (slug_available (find (slug_is (slugify title)) (posts db)) postId) eqn:Hbase.
    + rewrite probe_step_free in Hrun by done. injection Hrun as Hc _ _.
      destruct k; [done|]. by apply (candidate_inj _ 0 (S k)) in Hc.
    + destruct k as [|k]; [|done]. simpl in Hav. congruence.
Qed.

Lemma generate_slug_agrees_witness :
  "Foo" <> ""
  /\ exists db',
       SeoRoutes.generate_slug (Some "Foo") None (table foo_rows)
       = (SeoRoutes.SlugOk "foo-3" false, db').
Proof.
  split; [discriminate|].
  destruct (generate_slug_agrees "Foo" None (table foo_rows)) as (slug & db' & Hgen & Hrun & _).
  - discriminate.
  - exists db'. vm_compute in Hgen. injection Hgen as <- _. exact Hrun.
Defined.

(** ** The checks of the server-side analysis *)

Section server_checks.
Import Seo SeoChecks.

Lemma failures_snoc cs key st msg :
  failures (cs ++ [(key, {| check_status := st; check_message := msg |})])
  = failures cs + match st with Success => 0 | _ => 1 end.
Proof.
  unfold failures. rewrite List.filter_app, length_app. simpl.
  destruct st; simpl; lia.
Qed.

Lemma effect_trans n m ks ls a b c :
  effect n ks a b -> effect m ls b c -> effect (n + m) (ks ++ ls) a c.
Proof.
  unfold effect. intros (? & Hk1 & ? & ?) (? & Hk2 & ? & ?).
  split; [lia|]. split; [by rewrite Hk2, Hk1, app_assoc|]. split; [lia|congruence].
Qed.

Ltac split_tests :=
  repeat match goal with
         | |- context [truthy ?t] => destruct (truthy t)
         | |- context [slug_charset ?s] => destruct (slug_charset s)
         | |- context [(?x <? ?y)%nat] => destruct (Nat.ltb_spec x y)
         | |- context [(?x <=? ?y)%nat] => destruct (Nat.leb_spec x y)
         | |- context [(?x =? ?y)%nat] => destruct (Nat.eqb_spec x y)
         end.

Ltac solve_effect :=
  unfold effect, points; split_tests; simpl;
  rewrite ?map_app, ?failures_snoc, ?length_app; simpl;
  first [ exfalso; lia
        | repeat split; first [ lia | reflexivity | by rewrite app_nil_r ] ].

Lemma analyzeTitle_effect title a :
  effect (points (titleOk title) 20) ["title"] a (analyzeTitle title a).
Proof. unfold analyzeTitle, titleOk. solve_effect. Qed.

Lemma analyzeMetaDescription_effect meta a :
  effect (points (metaOk meta) 20) ["metaDescription"] a (analyzeMetaDescription meta a).
Proof. unfold analyzeMetaDescription, metaOk. solve_effect. Qed.

Lemma analyzeSlug_effect slug a :
  effect (points (slugOk slug) 15) ["slug"] a (analyzeSlug slug a).
Proof. unfold analyzeSlug, slugOk. solve_effect. Qed.

Lemma checkWordCount_effect c a :
  effect (points (wordsOk c) 15) ["wordCount"] a (checkWordCount c a).
Proof. unfold checkWordCount, wordsOk. solve_effect. Qed.

Lemma checkHeadings_effect c a :
  effect (points (headingsOk c) 10) ["headings"] a (checkHeadings c a).
Proof. unfold checkHeadings, headingsOk. solve_effect. Qed.

Lemma checkImages_effect c a :
  effect (points (imagesOk c) 10) (if hasImages c then ["images"] else [])
    a (checkImages c a).
Proof. unfold checkImages, imagesOk, hasImages. solve_effect. Qed.

Lemma checkLinks_effect c a :
  effect (points (linksOk c) 5) ["links"] a (checkLinks c a).
Proof. unfold checkLinks, linksOk. solve_effect. Qed.


Lemma analyzeContent_effect content a :
  effect (if truthy content
          then let c := default "" content in
               points (wordsOk c) 15 + points (headingsOk c) 10
               + points (imagesOk c) 10 + points (linksOk c) 5
          else 0)
         (if truthy content
          then ["wordCount"; "headings"]
               ++ (if hasImages (default "" content) then ["images"] else [])
               ++ ["links"]
          else ["content"])
         a (analyzeContent content a).
Proof.
  unfold analyzeContent. destruct (truthy content); simpl.
  - set (c := default "" content).
    pose proof (effect_trans _ _ _ _ _ _ _
                  (effect_trans _ _ _ _ _ _ _
                     (effect_trans _ _ _ _ _ _ _
                        (checkWordCount_effect c a)
                        (checkHeadings_effect c (checkWordCount c a)))
                     (checkImages_effect c _))
                  (checkLinks_effect c _)) as H.
    rewrite <- !app_assoc in H. exact H.
  - unfold effect. simpl. rewrite map_app, failures_snoc, length_app. simpl.
    repeat split; lia.
Qed.

Lemma analyzeChecks_effect content title meta slug :
  effect (scoreOf content title meta slug) (keysOf content)
    initial (analyzeChecks content title meta slug).
Proof.
  unfold analyzeChecks, scoreOf, keysOf.
  pose proof (effect_trans _ _ _ _ _ _ _
                (effect_trans _ _ _ _ _ _ _
                   (effect_trans _ _ _ _ _ _ _
                      (analyzeTitle_effect title initial)
                      (analyzeMetaDescription_effect meta _))
                   (analyzeSlug_effect slug _))
                (analyzeContent_effect content _)) as H.
  exact H.
Qed.

Lemma scoreOf_le content title meta slug : scoreOf content title meta slug <= 95.
Proof.
  unfold scoreOf, points.
  destruct (titleOk title), (metaOk meta), (slugOk slug), (truthy content); simpl;
    try destruct (wordsOk _); try destruct (headingsOk _);
    try destruct (imagesOk _); try destruct (linksOk _); lia.
Qed.

(** What a returned analysis is made of. *)
Lemma analyzeSEO_with_parts countMatches content title meta slug a :
  analyzeSEO_with countMatches content title meta slug = Some a ->
  score a = scoreOf content title meta slug
  /\ status a = Some (overall (scoreOf content title meta slug))
  /\ map fst (checks a) = keysOf content
  /\ length (issues a) + length (suggestions a) = failures (checks a)
  /\ (truthy title && truthy content = false -> keywordDensity a = None).
Proof.
  unfold analyzeSEO_with.
  destruct (analyzeKeywords _ _ _ _) as [a'|] eqn:Hk; simpl; [|done].
  intros [= <-].
  destruct (analyzeChecks_effect content title meta slug) as (Hs & Hkeys & Hfail & Hkd).
  pose proof (scoreOf_le content title meta slug) as Hle.
  simpl in Hs, Hkeys, Hfail, Hkd.
  change (failures []) with 0 in Hfail. unfold failures in Hfail.
  unfold analyzeKeywords in Hk.
  destruct (truthy title && truthy content) eqn:Htc.
  - destruct (fold_left _ _ _) as [kd|]; simpl in Hk; [|done].
    injection Hk as <-. cbn -[Nat.min]. rewrite Hs, Nat.min_r by lia.
    repeat split; try done. lia.
  - injection Hk as <-. cbn -[Nat.min]. rewrite Hs, Nat.min_r by lia.
    repeat split; try done. lia.
Qed.

End server_checks.

(** X8.  The score that the server-side [analyzeSEO] returns is the sum of the
    points of the conditions that hold: 20 for a title of 30 to 60
    characters, 20 for a meta description of 120 to 160, 15 for a slug of
    at most 75 characters in [[a-z0-9-]], and, when there is a content, 15
    for 300 words, 10 for a heading, 10 for images that all have alt text
    and 5 for a link; the status is the band of that sum. *)
Theorem analyzeSEO_score_formula countMatches content title meta slug a :
  Seo.analyzeSEO_with countMatches content title meta slug = Some a ->
  Seo.score a = SeoChecks.scoreOf content title meta slug
  /\ Seo.status a = Some (Seo.overall (SeoChecks.scoreOf content title meta slug)).
Proof.
  intros H. apply analyzeSEO_with_parts in H as (? & ? & _). done.
Qed.

Lemma analyzeSEO_score_formula_witness :
  exists a,
    Seo.analyzeSEO_with Seo.countWord (Some good_content) (Some "Short") None
      (Some "well-formed-post") = Some a
    /\ Seo.score a = 55
    /\ Seo.status a = Some Seo.NeedsImprovement.
Proof.
  destruct (Seo.analyzeSEO_with Seo.countWord (Some good_content) (Some "Short") None
              (Some "well-formed-post")) as [a|] eqn:Hrun.
  - exists a. split; [reflexivity|].
    destruct (analyzeSEO_score_formula _ _ _ _ _ _ Hrun) as [Hs Hst].
    rewrite Hs, Hst. split; vm_compute; reflexivity.
  - vm_compute in Hrun. discriminate Hrun.
Defined.

(** X9.  A score of 80 or more, the band of the status excellent, needs a
    title of 30 to 60 characters, a meta description of 120 to 160
    characters and a content; a score of 95 needs every condition. *)
Theorem analyzeSEO_excellent_needs countMatches content title meta slug a :
  Seo.analyzeSEO_with countMatches content title meta slug = Some a ->
  80 <= Seo.score a ->
  SeoChecks.titleOk title = true
  /\ SeoChecks.metaOk meta = true
  /\ truthy content = true
  /\ (Seo.score a = 95 ->
      SeoChecks.slugOk slug = true
      /\ SeoChecks.wordsOk (default "" content) = true
      /\ SeoChecks.headingsOk (default "" content) = true
      /\ SeoChecks.imagesOk (default "" content) = true
      /\ SeoChecks.linksOk (default "" content) = true).
Proof.
  intros H. apply analyzeSEO_with_parts in H as (-> & _).
  unfold SeoChecks.scoreOf, SeoChecks.points.
  destruct (SeoChecks.titleOk title), (SeoChecks.metaOk meta), (SeoChecks.slugOk slug),
    (truthy content); simpl;
    try destruct (SeoChecks.wordsOk _); try destruct (SeoChecks.headingsOk _);
    try destruct (SeoChecks.imagesOk _); try destruct (SeoChecks.linksOk _);
    simpl; intros; repeat split; try done; lia.
Qed.

Lemma analyzeSEO_excellent_needs_witness :
  exists a,
    Seo.analyzeSEO_with Seo.countWord (Some good_content) (Some good_title)
      (Some good_meta) (Some "well-formed-post") = Some a
    /\ 80 <= Seo.score a
    /\ SeoChecks.titleOk (Some good_title) = true.
Proof.
  destruct (Seo.analyzeSEO_with Seo.countWord (Some good_content) (Some good_title)
              (Some good_meta) (Some "well-formed-post")) as [a|] eqn:Hrun.
  - exists a. split; [reflexivity|].
    assert (Hs : 80 <= Seo.score a).
    { vm_compute in Hrun. injection Hrun as <-. vm_compute. lia. }
    split; [exact Hs|].
    destruct (analyzeSEO_excellent_needs _ _ _ _ _ _ Hrun Hs) as (Ht & _). exact Ht.
  - vm_compute in Hrun. discriminate Hrun.
Defined.

Section server_keys.
Import Seo SeoChecks.

Lemma keysOf_NoDup content : NoDup (keysOf content).
Proof.
  unfold keysOf. destruct (truthy content); [destruct (hasImages _)|]; by_decision.
Qed.

Lemma keysOf_length content : 4 <= length (keysOf content) <= 7.
Proof.
  unfold keysOf. destruct (truthy content); [destruct (hasImages _)|]; simpl; lia.
Qed.

Lemma check_of_is_Some key a : is_Some (check_of key a) <-> key ∈ map fst (checks a).
Proof.
  unfold check_of. induction (checks a) as [|[k c] l IH]; simpl.
  - split; [by intros [? ?]|by intros ?%elem_of_nil].
  - destruct (String.eqb_spec k key) as [->|Hne]; simpl.
    + split; [intros _; by left|by eexists].
    + rewrite IH. split; [by right|]. intros [?|?]%elem_of_cons; [congruence|done].
Qed.

Lemma failures_zero cs :
  failures cs = 0 <-> Forall (fun kc => check_status kc.2 = Success) cs.
Proof.
  unfold failures. induction cs as [|[k c] cs IH]; simpl.
  - split; [constructor|done].
  - destruct (check_status c) eqn:Hc; simpl.
    + rewrite IH. split; [by constructor|by intros [_ ?]%Forall_cons].
    + split; [lia|]. intros [H _]%Forall_cons. simpl in H. congruence.
    + split; [lia|]. intros [H _]%Forall_cons. simpl in H. congruence.
    + split; [lia|]. intros [H _]%Forall_cons. simpl in H. congruence.
Qed.

End server_keys.

(** X10.  The checks of a returned analysis have the keys title,
    metaDescription and slug, then either content alone, when the content
    is missing, or wordCount, headings, images if the content has an image
    tag, and links.  No key occurs twice, so that the checks are between
    four and seven, and a key of the object is present exactly when it is
    in that list. *)
Theorem analyzeSEO_check_keys countMatches content title meta slug a :
  Seo.analyzeSEO_with countMatches content title meta slug = Some a ->
  map fst (Seo.checks a) = SeoChecks.keysOf content
  /\ NoDup (map fst (Seo.checks a))
  /\ 4 <= length (Seo.checks a) <= 7
  /\ forall key, is_Some (Seo.check_of key a) <-> key ∈ SeoChecks.keysOf content.
Proof.
  intros H. apply analyzeSEO_with_parts in H as (_ & _ & Hkeys & _).
  split; [done|]. split; [rewrite Hkeys; apply keysOf_NoDup|]. split.
  - rewrite <- (length_map fst), Hkeys. apply keysOf_length.
  - intros key. by rewrite check_of_is_Some, Hkeys.
Qed.

Lemma analyzeSEO_check_keys_witness :
  exists a,
    Seo.analyzeSEO_with Seo.countWord (Some "Some text") (Some "Short") None None = Some a
    /\ map fst (Seo.checks a)
       = ["title"; "metaDescription"; "slug"; "wordCount"; "headings"; "links"].
Proof.
  destruct (Seo.analyzeSEO_with Seo.countWord (Some "Some text") (Some "Short") None None)
    as [a|] eqn:Hrun.
  - exists a. split; [reflexivity|].
    destruct (analyzeSEO_check_keys _ _ _ _ _ _ Hrun) as (Hk & _). rewrite Hk.
    vm_compute. reflexivity.
  - vm_compute in Hrun. discriminate Hrun.
Defined.

(** X11.  Every check of a returned analysis that is not a success has filed
    exactly one issue or suggestion, and nothing else files one: their
    number is the number of such checks, and the analysis has neither
    issues nor suggestions exactly when all its checks are successes. *)
Theorem analyzeSEO_one_remark_per_failure countMatches content title meta slug a :
  Seo.analyzeSEO_with countMatches content title meta slug = Some a ->
  length (Seo.issues a) + length (Seo.suggestions a) = SeoChecks.failures (Seo.checks a)
  /\ (Seo.issues a = [] /\ Seo.suggestions a = []
      <-> Forall (fun kc => Seo.check_status kc.2 = Seo.Success) (Seo.checks a)).
Proof.
  intros H. apply analyzeSEO_with_parts in H as (_ & _ & _ & Hfail & _).
  split; [done|]. rewrite <- failures_zero. split.
  - intros [Hi Hs]. rewrite Hi, Hs in Hfail. simpl in Hfail. lia.
  - intros Hz. rewrite Hz in Hfail.
    destruct (Seo.issues a), (Seo.suggestions a); simpl in Hfail; try lia. done.
Qed.

Lemma analyzeSEO_one_remark_per_failure_witness :
  exists a,
    Seo.analyzeSEO_with Seo.countWord (Some "Some text") (Some "Short") None None = Some a
    /\ length (Seo.issues a) + length (Seo.suggestions a) = 6.
Proof.
  destruct (Seo.analyzeSEO_with Seo.countWord (Some "Some text") (Some "Short") None None)
    as [a|] eqn:Hrun.
  - exists a. split; [reflexivity|].
    destruct (analyzeSEO_one_remark_per_failure _ _ _ _ _ _ Hrun) as (Hn & _).
    rewrite Hn. vm_compute in Hrun. injection Hrun as <-. vm_compute. reflexivity.
  - vm_compute in Hrun. discriminate Hrun.
Defined.

(** X12.  Without a content the returned analysis has the four checks title,
    metaDescription, slug and content, no keyword table, and at most 55
    points, so that its status is poor or needs-improvement. *)
Theorem analyzeSEO_without_content countMatches content title meta slug a :
  Seo.analyzeSEO_with countMatches content title meta slug = Some a ->
  truthy content = false ->
  map fst (Seo.checks a) = ["title"; "metaDescription"; "slug"; "content"]
  /\ Seo.keywordDensity a = None
  /\ Seo.score a <= 55
  /\ (Seo.status a = Some Seo.Poor \/ Seo.status a = Some Seo.NeedsImprovement).
Proof.
  intros H Hc. apply analyzeSEO_with_parts in H as (Hs & Hst & Hkeys & _ & Hkd).
  rewrite Hkeys, Hs, Hst. unfold SeoChecks.keysOf, SeoChecks.scoreOf, SeoChecks.points.
  rewrite Hc. split; [done|]. split; [apply Hkd; by rewrite Hc, andb_false_r|].
  destruct (SeoChecks.titleOk title), (SeoChecks.metaOk meta), (SeoChecks.slugOk slug);
    simpl; (split; [lia|]); auto.
Qed.

Lemma analyzeSEO_without_content_witness :
  exists a,
    Seo.analyzeSEO_with Seo.countWord None (Some good_title) (Some good_meta)
      (Some "well-formed-post") = Some a
    /\ truthy None = false
    /\ Seo.score a <= 55.
Proof.
  destruct (Seo.analyzeSEO_with Seo.countWord None (Some good_title) (Some good_meta)
              (Some "well-formed-post")) as [a|] eqn:Hrun.
  - exists a. split; [reflexivity|]. split; [reflexivity|].
    destruct (analyzeSEO_without_content _ _ _ _ _ _ Hrun eq_refl) as (_ & _ & Hle & _).
    exact Hle.
  - vm_compute in Hrun. discriminate Hrun.
Defined.

(** ** The keyword table *)

Section keyword_table.
Import Seo SeoChecks.
Variable countMatches : string -> string -> option nat.
Variable content : string.

Lemma densityOfWord_Some kd w :
  densityOfWord countMatches content (Some kd) w
  = if (3 <? String.length w)%nat
    then (fun n => <[w := entryOf content n]> kd) <$> countMatches w (toLowerCase content)
    else Some kd.
Proof.
  unfold densityOfWord. simpl. destruct (3 <? String.length w)%nat; [|done].
  by destruct (countMatches w (toLowerCase content)).
Qed.

Lemma fold_densityOfWord_None ws :
  fold_left (densityOfWord countMatches content) ws None = None.
Proof. induction ws as [|w ws IH]; [done|]. simpl. exact IH. Qed.

Lemma fold_densityOfWord_lookup ws kd0 kd :
  fold_left (densityOfWord countMatches content) ws (Some kd0) = Some kd ->
  forall w,
    kd !! w
    = if bool_decide (w ∈ ws) && (3 <? String.length w)%nat
      then entryOf content <$> countMatches w (toLowerCase content)
      else kd0 !! w.
Proof.
  revert kd0. induction ws as [|w0 ws IH]; intros kd0 Hfold w.
  { simpl in Hfold. injection Hfold as <-. done. }
  cbn [fold_left] in Hfold. rewrite densityOfWord_Some in Hfold.
  destruct (3 <? String.length w0)%nat eqn:Hlong.
  - destruct (countMatches w0 (toLowerCase content)) as [n|] eqn:Hn; simpl in Hfold.
    2:{ by rewrite fold_densityOfWord_None in Hfold. }
    rewrite (IH _ Hfold w).
    destruct (decide (w = w0)) as [->|Hne].
    + rewrite Hlong, Hn. rewrite (bool_decide_eq_true_2 (w0 ∈ w0 :: ws)) by (by left).
      simpl. rewrite lookup_insert_eq. by destruct (bool_decide (w0 ∈ ws)).
    + rewrite lookup_insert_ne by done.
      assert (bool_decide (w ∈ w0 :: ws) = bool_decide (w ∈ ws)) as ->; [|done].
      apply bool_decide_ext. rewrite elem_of_cons. intuition congruence.
  - rewrite (IH _ Hfold w).
    destruct (decide (w = w0)) as [->|Hne].
    + rewrite Hlong, !andb_false_r. done.
    + assert (bool_decide (w ∈ w0 :: ws) = bool_decide (w ∈ ws)) as ->; [|done].
      apply bool_decide_ext. rewrite elem_of_cons. intuition congruence.
Qed.

Lemma fold_densityOfWord_counted ws kd0 kd :
  fold_left (densityOfWord countMatches content) ws (Some kd0) = Some kd ->
  forall w, w ∈ ws -> (3 <? String.length w)%nat = true ->
            is_Some (countMatches w (toLowerCase content)).
Proof.
  revert kd0. induction ws as [|w0 ws IH]; intros kd0 Hfold w Hw Hlong.
  { by apply elem_of_nil in Hw. }
  cbn [fold_left] in Hfold. rewrite densityOfWord_Some in Hfold.
  destruct (3 <? String.length w0)%nat eqn:Hlong0.
  - destruct (countMatches w0 (toLowerCase content)) as [n|] eqn:Hn; simpl in Hfold.
    2:{ by rewrite fold_densityOfWord_None in Hfold. }
    apply elem_of_cons in Hw as [->|Hw]; [by eexists|]. by eapply IH.
  - apply elem_of_cons in Hw as [->|Hw]; [congruence|]. by eapply IH.
Qed.

End keyword_table.

(** X13.  For a title and a content that are not empty, the keyword table of a
    returned analysis has an entry exactly for the words of the
    lower-cased title that are longer than three characters; the entry of
    a word holds the number of its matches in the lower-cased content and
    that number over the word count of the content as a percentage with
    two decimals.  (The word __proto__ is set aside: as a key it names
    the prototype of the object and not an entry.) *)
Theorem analyzeSEO_keyword_table countMatches content title meta slug a :
  Seo.analyzeSEO_with countMatches (Some content) (Some title) meta slug = Some a ->
  title <> "" -> content <> "" ->
  exists kd,
    Seo.keywordDensity a = Some kd
    /\ forall w,
         (w ∈ SeoChecks.longTitleWords title ->
          w <> "__proto__" ->
          exists n, countMatches w (toLowerCase content) = Some n
                    /\ kd !! w = Some (SeoChecks.entryOf content n))
         /\ (w ∉ SeoChecks.longTitleWords title -> kd !! w = None).
Proof.
  intros Hrun Ht Hc. unfold Seo.analyzeSEO_with, Seo.analyzeKeywords in Hrun.
  replace (truthy (Some title)) with true in Hrun by (by destruct title).
  replace (truthy (Some content)) with true in Hrun by (by destruct content).
  change (default "" (Some title)) with title in Hrun.
  change (default "" (Some content)) with content in Hrun.
  cbv beta iota zeta delta [andb] in Hrun.
  destruct (fold_left _ _ _) as [kd|] eqn:Hfold; simpl in Hrun; [|done].
  injection Hrun as <-. exists kd. split; [done|]. intros w.
  pose proof (fold_densityOfWord_lookup _ _ _ _ _ Hfold w) as Hlook.
  unfold SeoChecks.longTitleWords.
  rewrite list_elem_of_In, List.filter_In, <- list_elem_of_In. split.
  - intros [Hw Hlong] _.
    destruct (fold_densityOfWord_counted _ _ _ _ _ Hfold w Hw Hlong) as [n Hn].
    exists n. split; [done|].
    by rewrite Hlook, bool_decide_eq_true_2, Hlong, Hn.
  - intros Hnot. rewrite Hlook.
    destruct (bool_decide (w ∈ _)) eqn:Hin; [|done].
    destruct (3 <? String.length w)%nat eqn:Hlong; [|done].
    exfalso. apply Hnot. apply bool_decide_eq_true in Hin. done.
Qed.

Lemma analyzeSEO_keyword_table_witness :
  exists a kd,
    Seo.analyzeSEO_with Seo.countWord (Some hooks_content) (Some "The React Hooks") None None
      = Some a
    /\ Seo.keywordDensity a = Some kd
    /\ kd !! "the" = None
    /\ is_Some (kd !! "react").
Proof.
  destruct (Seo.analyzeSEO_with Seo.countWord (Some hooks_content) (Some "The React Hooks")
              None None) as [a|] eqn:Hrun.
  2:{ vm_compute in Hrun. discriminate Hrun. }
  destruct (analyzeSEO_keyword_table _ _ _ _ _ _ Hrun) as (kd & Hkd & Hall).
  - discriminate.
  - discriminate.
  - exists a, kd. split; [reflexivity|]. split; [exact Hkd|]. split.
    + apply (Hall "the"). by_decision.
    + destruct (Hall "react") as [Hin _].
      destruct Hin as (n & _ & ->); [by_decision|discriminate|]. by eexists.
Defined.

(** ** The analysis route *)

Section analyze_route.
Import Seo SeoChecks.

Lemma slug_char_charset c :
  is_slug_char c = true -> is_lower c || is_digit c || Ascii.eqb c "-" = true.
Proof. by_cases_on c. Qed.

Lemma slug_shape_charset b s :
  slug_shape_go b s = true ->
  all_chars (fun c => is_lower c || is_digit c || Ascii.eqb c "-") s = true.
Proof.
  revert b. induction s as [|c s IH]; intros b; [done|]. simpl.
  destruct (is_slug_char c) eqn:Hc.
  - intros H. rewrite (slug_char_charset c Hc). simpl. by eapply IH.
  - destruct (Ascii.eqb c "-") eqn:Hh; [|done].
    intros [_ H]%andb_prop. rewrite orb_true_r. simpl. by eapply IH.
Qed.

(** A slug made by [slugify] passes the test of the slug check on its
    characters. *)
Lemma slugify_charset title :
  slugify title <> "" -> slug_charset (slugify title) = true.
Proof.
  intros Hne. destruct (slugify_shape title) as [?|Hshape]; [done|].
  unfold slug_charset. destruct (slugify title) eqn:E; [done|]. simpl is_empty.
  simpl negb. rewrite andb_true_l. by eapply slug_shape_charset.
Qed.

Ltac split_tests :=
  repeat match goal with
         | |- context [truthy ?t] => destruct (truthy t)
         | |- context [slug_charset ?s] => destruct (slug_charset s)
         | |- context [(?x <? ?y)%nat] => destruct (Nat.ltb_spec x y)
         | |- context [(?x <=? ?y)%nat] => destruct (Nat.leb_spec x y)
         | |- context [(?x =? ?y)%nat] => destruct (Nat.eqb_spec x y)
         end.

Lemma analyzeTitle_check title a :
  exists c, checks (analyzeTitle title a) = (checks a ++ [("title", c)])%list
            /\ (check_status c = Error <-> truthy title = false).
Proof.
  unfold analyzeTitle. split_tests; simpl; eexists; (split; [reflexivity|]); simpl; done.
Qed.

Lemma analyzeMetaDescription_check meta a :
  exists c, checks (analyzeMetaDescription meta a)
            = (checks a ++ [("metaDescription", c)])%list.
Proof.
  unfold analyzeMetaDescription. split_tests; simpl; by eexists.
Qed.

Lemma analyzeSlug_check slug a :
  exists c, checks (analyzeSlug slug a) = (checks a ++ [("slug", c)])%list
            /\ (check_status c = Success <-> slugOk slug = true)
            /\ (check_status c = Error <-> truthy slug = false).
Proof.
  unfold analyzeSlug, slugOk.
  split_tests; simpl; eexists; (split; [reflexivity|]); simpl;
    (split; (split; (done || lia))).
Qed.

Lemma analyzeContent_extends content a :
  exists cs, checks (analyzeContent content a) = (checks a ++ cs)%list.
Proof.
  unfold analyzeContent, checkLinks, checkImages, checkHeadings, checkWordCount.
  split_tests; simpl; rewrite <- ?app_assoc; by eexists.
Qed.

(** The checks under the first three keys of a returned analysis. *)
Lemma analyzeSEO_with_first_checks countMatches content title meta slug a :
  analyzeSEO_with countMatches content title meta slug = Some a ->
  exists ct cs,
    check_of "title" a = Some ct
    /\ (check_status ct = Error <-> truthy title = false)
    /\ check_of "slug" a = Some cs
    /\ (check_status cs = Success <-> slugOk slug = true)
    /\ (check_status cs = Error <-> truthy slug = false).
Proof.
  intros [_ Hc]%analyzeSEO_with_score. unfold check_of. rewrite Hc. unfold analyzeChecks.
  destruct (analyzeTitle_check title initial) as (ct & Ht & Hct).
  destruct (analyzeMetaDescription_check meta (analyzeTitle title initial)) as (cm & Hm).
  destruct (analyzeSlug_check slug (analyzeMetaDescription meta (analyzeTitle title initial)))
    as (cs & Hs & Hcs1 & Hcs2).
  destruct (analyzeContent_extends content
              (analyzeSlug slug (analyzeMetaDescription meta (analyzeTitle title initial))))
    as (rest & Hr).
  rewrite Hr, Hs, Hm, Ht. simpl. exists ct, cs. repeat split; try tauto.
Qed.

Lemma slugOk_slugify title :
  slugOk (Some (slugify title)) = true
  <-> slugify title <> "" /\ String.length (slugify title) <= 75.
Proof.
  unfold slugOk, len. change (default "" (Some (slugify title))) with (slugify title).
  destruct (decide (slugify title = "")) as [E|E].
  - rewrite E. simpl. split; [done|]. intros [? _]. done.
  - rewrite slugify_charset by done.
    assert (truthy (Some (slugify title)) = true) as ->.
    { simpl. by destruct (slugify title). }
    rewrite andb_true_r, andb_true_l, Nat.leb_le. split; [done|by intros [_ ?]].
Qed.

End analyze_route.

(** X14.  Whatever the patterns of the title words match, when
    [POST /api/seo/analyze] answers with an analysis for a request without
    a slug, the slug it generated is [slugify] of the title and the slug
    check can fail only on its length: the check is a success when the
    slug is not empty and has at most 75 characters, an error exactly when
    it is empty, and never the warning about its characters.  The title
    check is not the error of a missing title, and there is no check under
    the key content. *)
Theorem analyze_without_slug countMatches title content meta a generatedSlug :
  SeoRoutes.analyze_with countMatches (Some title) (Some content) None meta
    = SeoRoutes.AnalyzeOk a generatedSlug ->
  generatedSlug = slugify title
  /\ exists ct cs,
       Seo.check_of "title" a = Some ct
       /\ Seo.check_status ct <> Seo.Error
       /\ Seo.check_of "slug" a = Some cs
       /\ (Seo.check_status cs = Seo.Success
           <-> generatedSlug <> "" /\ String.length generatedSlug <= 75)
       /\ (Seo.check_status cs = Seo.Error <-> generatedSlug = "")
       /\ Seo.check_of "content" a = None.
Proof.
  unfold SeoRoutes.analyze_with.
  destruct (truthy (Some title) && truthy (Some content)) eqn:Hvalid; simpl; [|done].
  apply andb_prop in Hvalid as [Ht Hc].
  destruct (Seo.analyzeSEO_with _ _ _ _ _) as [a'|] eqn:Hrun; [|done].
  intros [= <- <-]. split; [done|].
  destruct (analyzeSEO_with_first_checks _ _ _ _ _ _ Hrun) as (ct & cs & Hct & Hte & Hcs & Hss & Hse).
  exists ct, cs. split; [done|]. split; [rewrite Hte; congruence|]. split; [done|].
  pose proof (slugOk_slugify title) as Hok.
  split; [by rewrite Hss|]. split.
  - rewrite Hse. simpl. destruct (slugify title); simpl; split; done.
  - apply analyzeSEO_with_parts in Hrun as (_ & _ & Hkeys & _).
    destruct (Seo.check_of "content" a') eqn:E; [|done].
    assert (is_Some (Seo.check_of "content" a')) as Hsome by by eexists.
    apply check_of_is_Some in Hsome. rewrite Hkeys in Hsome.
    unfold SeoChecks.keysOf in Hsome. rewrite Hc in Hsome.
    exfalso. revert Hsome. destruct (SeoChecks.hasImages _); by_decision.
Qed.

Lemma analyze_without_slug_witness :
  exists a,
    SeoRoutes.analyze_with Seo.countWord (Some "Hello, World! 2024") (Some "Some text")
      None None
      = SeoRoutes.AnalyzeOk a "hello-world-2024"
    /\ exists cs, Seo.check_of "slug" a = Some cs /\ Seo.check_status cs = Seo.Success.
Proof.
  destruct (SeoRoutes.analyze_with Seo.countWord (Some "Hello, World! 2024")
              (Some "Some text") None None)
    as [a g| |] eqn:Hrun.
  2,3: vm_compute in Hrun; discriminate Hrun.
  destruct (analyze_without_slug _ _ _ _ _ _ Hrun) as (-> & ct & cs & _ & _ & Hcs & Hok & _).
  exists a. split; [reflexivity|]. exists cs. split; [exact Hcs|].
  apply Hok. split; [discriminate|]. vm_compute. lia.
Defined.

(** ** The suggestions route *)

Section suggestions_route.
Import JsArray Seo SeoRoutes.

Lemma insert_high x l :
  is_high x = true -> insert by_priority x l = x :: l.
Proof.
  intros Hx. destruct l as [|y l]; [done|]. simpl. unfold by_priority. rewrite Hx.
  by destruct (is_high y).
Qed.

Lemma insert_medium x hs ms :
  is_high x = false ->
  Forall (fun s => is_high s = true) hs ->
  Forall (fun s => is_high s = false) ms ->
  insert by_priority x (hs ++ ms) = (hs ++ x :: ms)%list.
Proof.
  intros Hx Hhs Hms. induction Hhs as [|h hs Hh _ IH]; simpl.
  - destruct Hms as [|m ms Hm _]; [done|]. simpl. unfold by_priority. by rewrite Hx, Hm.
  - unfold by_priority at 1. rewrite Hx, Hh. simpl. by rewrite IH.
Qed.

(** The sort by priority puts the high suggestions first and keeps the
    order within each priority. *)
Lemma sort_by_priority l :
  sort by_priority l
  = (List.filter is_high l ++ List.filter (fun s => negb (is_high s)) l)%list.
Proof.
  induction l as [|x l IH]; [done|]. unfold sort in *. simpl. rewrite IH.
  destruct (is_high x) eqn:Hx; simpl.
  - exact (insert_high x _ Hx).
  - apply insert_medium; [done| |].
    + apply Forall_forall. intros s Hs. apply list_elem_of_In, List.filter_In in Hs. tauto.
    + apply Forall_forall. intros s Hs. apply list_elem_of_In, List.filter_In in Hs.
      destruct Hs as [_ Hs]. by apply negb_true_iff in Hs.
Qed.

Lemma length_partition {A} (f : A -> bool) l :
  length (List.filter f l ++ List.filter (fun x => negb (f x)) l) = length l.
Proof.
  rewrite length_app. induction l as [|x l IH]; [done|]. simpl.
  destruct (f x); simpl; lia.
Qed.

Lemma length_omap_le {A B} (f : A -> option B) l : length (omap f l) <= length l.
Proof. induction l as [|x l IH]; [done|]. csimpl. destruct (f x); simpl; lia. Qed.

Lemma issuesOf_length post : length (issuesOf post) <= 4.
Proof.
  unfold issuesOf. rewrite !length_app.
  repeat match goal with
         | |- context [if ?b then _ else _] => destruct b
         end; simpl; lia.
Qed.

Lemma issuesOf_wellFormed post :
  (0 <? length (issuesOf post))%nat = negb (wellFormed post).
Proof.
  unfold issuesOf, wellFormed. rewrite !length_app.
  rewrite !(Nat.leb_antisym 60), !(Nat.leb_antisym 160), !(Nat.leb_antisym 75),
    (Nat.leb_antisym _ 300).
  destruct (truthy (sel_metaTitle post)), (60 <? len (sel_metaTitle post))%nat,
    (truthy (sel_metaDescription post)), (160 <? len (sel_metaDescription post))%nat,
    (75 <? String.length (sel_slug post))%nat,
    (wordCount (sel_content post) <? 300)%nat; reflexivity.
Qed.

End suggestions_route.

(** X16.  The suggestions of [GET /api/seo/suggestions] are the first twenty of
    the list that has the suggestions of high priority, in the order of
    the rows, before those of medium priority, in the order of the rows;
    [totalIssues] is the number of rows with a suggestion, which can
    exceed the twenty that are returned. *)
Theorem suggestions_high_first rows :
  (SeoRoutes.suggestions rows).1
  = take 20 (List.filter SeoRoutes.is_high (omap SeoRoutes.suggestionOf rows)
             ++ List.filter (fun s => negb (SeoRoutes.is_high s))
                  (omap SeoRoutes.suggestionOf rows))
  /\ (SeoRoutes.suggestions rows).2 = length (omap SeoRoutes.suggestionOf rows)
  /\ length (SeoRoutes.suggestions rows).1 = Nat.min 20 (SeoRoutes.suggestions rows).2
  /\ (SeoRoutes.suggestions rows).2 <= length rows.
Proof.
  unfold SeoRoutes.suggestions. simpl. rewrite sort_by_priority.
  set (all := omap SeoRoutes.suggestionOf rows).
  pose proof (length_partition SeoRoutes.is_high all) as Hlen.
  split; [done|]. split; [done|]. split; [by rewrite length_take, Hlen|].
  rewrite Hlen. apply length_omap_le.
Qed.

(** X15.  A row gets a suggestion exactly when one of the four tests finds an
    issue: a meta title that is missing or longer than 60 characters, a
    meta description that is missing or longer than 160, a slug longer
    than 75, or a content of fewer than 300 words.  The suggestion names
    the row, has between one and four issues, and is of high priority
    exactly when it has three or four. *)
Theorem suggestionOf_spec post :
  match SeoRoutes.suggestionOf post with
  | None => SeoRoutes.wellFormed post = true
  | Some s =>
      SeoRoutes.wellFormed post = false
      /\ SeoRoutes.sg_postId s = SeoRoutes.sel_id post
      /\ SeoRoutes.sg_issues s = SeoRoutes.issuesOf post
      /\ 1 <= length (SeoRoutes.sg_issues s) <= 4
      /\ (SeoRoutes.is_high s = true <-> 3 <= length (SeoRoutes.sg_issues s))
  end.
Proof.
  unfold SeoRoutes.suggestionOf.
  pose proof (issuesOf_length post) as Hle.
  pose proof (issuesOf_wellFormed post) as Hwf.
  destruct (Nat.ltb_spec 0 (length (SeoRoutes.issuesOf post))) as [Hpos|Hzero].
  - simpl. split; [by apply negb_true_iff|]. split; [done|]. split; [done|]. split; [lia|].
    unfold SeoRoutes.is_high. simpl.
    destruct (Nat.ltb_spec 2 (length (SeoRoutes.issuesOf post))); split; (done || lia).
  - symmetry in Hwf. by apply negb_false_iff in Hwf.
Qed.

(** ** The keywords route *)

Section keywords.
Import JsArray Seo SeoRoutes.

(** Insertion keeps the elements. *)
Lemma insert_Permutation {A} (cmp : A -> A -> Z) x l : insert cmp x l ≡ₚ x :: l.
Proof.
  induction l as [|y l IH]; [done|]. simpl.
  destruct (0 <? cmp x y)%Z; [|done]. rewrite IH. apply Permutation_swap.
Qed.

Lemma sort_Permutation {A} (cmp : A -> A -> Z) l : sort cmp l ≡ₚ l.
Proof.
  unfold sort. induction l as [|x l IH]; [done|]. simpl.
  by rewrite insert_Permutation, IH.
Qed.

Lemma insert_sorted x l :
  StronglySorted count_ge l -> StronglySorted count_ge (insert by_count_desc x l).
Proof.
  induction 1 as [|y l Hl IH Hy]; simpl; [repeat constructor|].
  unfold by_count_desc at 1. destruct (Z.ltb_spec 0 (Z.of_nat y.2 - Z.of_nat x.2)).
  - constructor; [done|].
    apply Forall_forall. intros z Hz.
    rewrite insert_Permutation in Hz. apply elem_of_cons in Hz as [->|Hz].
    + unfold count_ge. lia.
    + rewrite Forall_forall in Hy. by apply Hy.
  - constructor; [by constructor|]. constructor; [unfold count_ge; lia|].
    eapply Forall_impl; [exact Hy|]. unfold count_ge. intros z ?. lia.
Qed.

Lemma sort_sorted l : StronglySorted count_ge (sort by_count_desc l).
Proof.
  unfold sort. induction l as [|x l IH]; simpl; [constructor|]. by apply insert_sorted.
Qed.

Lemma take_sorted {A} (R : A -> A -> Prop) n l :
  StronglySorted R l -> StronglySorted R (take n l).
Proof.
  intros H. revert n. induction H as [|x l Hl IH Hx]; intros [|n]; simpl; try constructor.
  - apply IH.
  - rewrite Forall_forall in *. intros y Hy. apply Hx.
    eapply elem_of_sublist; [exact Hy|]. apply sublist_take.
Qed.

(** The matches of a global pattern all come from the pattern. *)
Lemma match_all_go_Forall (P : string -> Prop) at_start prev_word skip s :
  (forall pw t m, at_start pw t = Some m -> P m) ->
  Forall P (match_all_go at_start prev_word skip s).
Proof.
  intros Hat. revert prev_word skip. induction s as [|c s IH]; intros pw skip; [constructor|].
  simpl. destruct skip as [|k]; [|apply IH].
  destruct (at_start pw (String c s)) as [m|] eqn:Hm; [|apply IH].
  constructor; [by eapply Hat|apply IH].
Qed.

Lemma span_fst p s : all_chars p (span p s).1 = true.
Proof.
  induction s as [|c s IH]; [done|]. simpl.
  destruct (p c) eqn:Hc; [|done]. destruct (span p s). simpl in *. by rewrite Hc.
Qed.

Lemma small_word_at_spec pw s m :
  small_word_at pw s = Some m ->
  all_chars is_lower m = true /\ 3 <= String.length m.
Proof.
  unfold small_word_at. pose proof (span_fst is_lower s) as Hspan.
  destruct (span is_lower s) as [run rest]. simpl in Hspan.
  destruct (negb pw), (Nat.leb_spec 3 (String.length run)),
    (negb (head_is_word rest)); simpl; try done.
  intros [= <-]. split; [done|lia].
Qed.

(** The entries of the object of counts. *)
Lemma bump_keys word counts :
  map fst (bump word counts)
  = if bool_decide (word ∈ map fst counts) then map fst counts
    else (map fst counts ++ [word])%list.
Proof.
  induction counts as [|[w n] counts IH]; [done|]. simpl.
  destruct (String.eqb_spec w word) as [->|Hne]; simpl.
  - by rewrite bool_decide_eq_true_2 by (by left).
  - rewrite IH. destruct (bool_decide (word ∈ map fst counts)) eqn:Hin.
    + apply bool_decide_eq_true in Hin. by rewrite bool_decide_eq_true_2 by (by right).
    + apply bool_decide_eq_false in Hin.
      rewrite bool_decide_eq_false_2; [done|].
      intros [?|?]%elem_of_cons; [congruence|done].
Qed.

Lemma bump_sum word counts :
  sum_list (map snd (bump word counts)) = S (sum_list (map snd counts)).
Proof.
  induction counts as [|[w n] counts IH]; [done|]. simpl.
  destruct (String.eqb w word); simpl in *; rewrite ?IH; lia.
Qed.

Lemma bump_positive word counts :
  Forall (fun wc => 1 <= wc.2) counts -> Forall (fun wc => 1 <= wc.2) (bump word counts).
Proof.
  induction 1 as [|[w n] counts Hw Hrest IH]; simpl; [repeat constructor|].
  destruct (String.eqb w word); constructor; simpl in *; (done || lia).
Qed.

Lemma bump_NoDup word counts :
  NoDup (map fst counts) -> NoDup (map fst (bump word counts)).
Proof.
  intros Hnd. rewrite bump_keys. case_bool_decide as Hin; [done|].
  apply NoDup_app. split; [done|]. split; [|apply NoDup_singleton].
  intros x Hx ->%list_elem_of_singleton. done.
Qed.

Lemma countWords_go_ok words seen counts :
  counts_ok seen counts ->
  counts_ok (seen ++ words)
    (fold_left (fun counts word => if is_stop word then counts else bump word counts)
               words counts).
Proof.
  revert seen counts. induction words as [|w words IH]; intros seen counts Hok.
  { by rewrite app_nil_r. }
  simpl. replace (seen ++ w :: words)%list with ((seen ++ [w]) ++ words)%list
    by (by rewrite <- app_assoc).
  apply IH. destruct Hok as (Hnd & Hpos & Hkeys & Hsum).
  destruct (is_stop w) eqn:Hstop.
  - split; [done|]. split; [done|]. split.
    + intros x. rewrite Hkeys, elem_of_app, list_elem_of_singleton.
      split; [tauto|]. intros [[?| ->] ?]; [done|congruence].
    + rewrite Hsum, List.filter_app, length_app. simpl. rewrite Hstop. simpl. lia.
  - split; [by apply bump_NoDup|]. split; [by apply bump_positive|]. split.
    + intros x. rewrite bump_keys, elem_of_app, list_elem_of_singleton.
      case_bool_decide as Hin.
      * rewrite Hkeys. split; [tauto|]. intros [[?| ->] ?]; [done|]. by apply Hkeys.
      * rewrite elem_of_app, list_elem_of_singleton, Hkeys.
        split; [intros [[? ?]| ->]; auto|]. intros [[?| ->] ?]; auto.
    + rewrite bump_sum, Hsum, List.filter_app, length_app. simpl. rewrite Hstop. simpl. lia.
Qed.

Lemma countWords_ok words : counts_ok words (countWords words).
Proof.
  apply (countWords_go_ok words [] []).
  split; [constructor|]. split; [constructor|]. split; [|done].
  intros w. split; [by intros ?%elem_of_nil|by intros [?%elem_of_nil _]].
Qed.

End keywords.

Section keywords_response.
Import JsArray Seo SeoRoutes.

Lemma length_le_sum counts :
  Forall (fun wc : string * nat => 1 <= wc.2) counts ->
  length counts <= sum_list (map snd counts).
Proof. induction 1 as [|[w n] counts Hw _ IH]; simpl in *; lia. Qed.

Lemma length_filter_le {A} (f : A -> bool) l : length (List.filter f l) <= length l.
Proof. induction l as [|x l IH]; simpl; [done|]. destruct (f x); simpl; lia. Qed.

Lemma sum_take_le n (l : list nat) : sum_list (take n l) <= sum_list l.
Proof.
  revert n. induction l as [|x l IH]; intros [|n]; simpl; try lia.
  specialize (IH n). lia.
Qed.

(** The parts of an answer of the keywords route. *)
Lemma keywords_route_parts content title body :
  keywords_route content title = KeywordsOk body ->
  exists words counts,
    counts_ok words counts
    /\ Forall (fun w => all_chars is_lower w = true /\ 3 <= String.length w
                        /\ w <> "constructor") words
    /\ totalWords body = length words
    /\ uniqueWords body = length counts
    /\ keywords body
       = map (fun wc => {| kw_word := wc.1; kw_count := wc.2;
                           kw_density := density_toFixed2 wc.2 (length words) |})
             (take 20 (sort by_count_desc counts)).
Proof.
  unfold keywords_route. destruct (negb (truthy content)); [done|].
  set (words := match_all small_word_at _).
  destruct (existsb (String.eqb "constructor") words) eqn:Hc; [done|].
  intros [= <-]. exists words, (countWords words). simpl.
  split; [apply countWords_ok|]. split; [|done].
  apply Forall_forall. intros w Hw.
  assert (Hm : all_chars is_lower w = true /\ 3 <= String.length w).
  { pose proof (match_all_go_Forall
                  (fun m => all_chars is_lower m = true /\ 3 <= String.length m)
                  small_word_at false 0
                  (toLowerCase ((if truthy title then default "" title else "")
                                  +:+ " " +:+ default "" content))
                  small_word_at_spec) as Hall.
    rewrite Forall_forall in Hall. by apply Hall. }
  destruct Hm as [Hl Hn]. split; [done|]. split; [done|].
  intros ->. rewrite existsb_false_iff in Hc. specialize (Hc _ Hw).
  by rewrite String.eqb_refl in Hc.
Qed.

End keywords_response.

(** X17.  The keywords that [GET /api/seo/keywords] returns are in the order of
    their counts, largest first; they are the twenty first of the distinct
    words counted, or all of them when these are fewer; no word is listed
    twice, and the distinct words are no more than the words read. *)
Theorem keywords_route_order content title body :
  SeoRoutes.keywords_route content title = SeoRoutes.KeywordsOk body ->
  StronglySorted (fun k1 k2 => SeoRoutes.kw_count k2 <= SeoRoutes.kw_count k1)
    (SeoRoutes.keywords body)
  /\ length (SeoRoutes.keywords body) = Nat.min 20 (SeoRoutes.uniqueWords body)
  /\ NoDup (map SeoRoutes.kw_word (SeoRoutes.keywords body))
  /\ SeoRoutes.uniqueWords body <= SeoRoutes.totalWords body.
Proof.
  intros (words & counts & (Hnd & Hpos & Hkeys & Hsum) & _ & -> & -> & ->)%keywords_route_parts.
  split; [|split; [|split]].
  - apply (StronglySorted_fmap _ SeoRoutes.count_ge); [done|].
    apply take_sorted, sort_sorted.
  - rewrite length_map, length_take.
    by rewrite (Permutation_length (sort_Permutation _ _)).
  - rewrite map_map. simpl.
    eapply sublist_NoDup; [|by apply (fmap_sublist fst), sublist_take].
    by rewrite sort_Permutation.
  - pose proof (length_le_sum counts Hpos).
    pose proof (length_filter_le (fun w => negb (SeoRoutes.is_stop w)) words). lia.
Qed.

Lemma keywords_route_order_witness :
  exists body,
    SeoRoutes.keywords_route (Some "the cat and the hat; a cat sat") None
      = SeoRoutes.KeywordsOk body
    /\ map (fun k => (SeoRoutes.kw_word k, SeoRoutes.kw_count k)) (SeoRoutes.keywords body)
       = [("cat", 2); ("hat", 1); ("sat", 1)]
    /\ NoDup (map SeoRoutes.kw_word (SeoRoutes.keywords body)).
Proof.
  destruct (SeoRoutes.keywords_route (Some "the cat and the hat; a cat sat") None)
    as [body| |] eqn:Hrun.
  2,3: vm_compute in Hrun; discriminate Hrun.
  exists body. split; [reflexivity|].
  destruct (keywords_route_order _ _ _ Hrun) as (_ & _ & Hnd & _).
  split; [|exact Hnd]. vm_compute in Hrun. injection Hrun as <-. reflexivity.
Defined.

(** X18.  Every keyword that the route returns is a word of at least three
    small letters that is not a stop word; it was read at least once, and
    the counts of the keywords together do not exceed the number of words
    read. *)
Theorem keywords_route_entries content title body :
  SeoRoutes.keywords_route content title = SeoRoutes.KeywordsOk body ->
  Forall (fun k => SeoRoutes.is_stop (SeoRoutes.kw_word k) = false
                   /\ 3 <= String.length (SeoRoutes.kw_word k)
                   /\ all_chars is_lower (SeoRoutes.kw_word k) = true
                   /\ 1 <= SeoRoutes.kw_count k
                   /\ SeoRoutes.kw_density k
                      = Seo.density_toFixed2 (SeoRoutes.kw_count k)
                          (SeoRoutes.totalWords body))
    (SeoRoutes.keywords body)
  /\ sum_list (map SeoRoutes.kw_count (SeoRoutes.keywords body))
     <= SeoRoutes.totalWords body.
Proof.
  intros (words & counts & (Hnd & Hpos & Hkeys & Hsum) & Hwords & -> & _ & ->)%keywords_route_parts.
  assert (Hin : forall wc, wc ∈ take 20 (JsArray.sort SeoRoutes.by_count_desc counts) ->
                           wc ∈ counts).
  { intros wc Hwc.
    pose proof (elem_of_sublist _ _ _ Hwc (sublist_take _ _)) as Hs.
    by rewrite sort_Permutation in Hs. }
  split.
  - apply Forall_forall. intros k [wc [-> Hwc]]%list_elem_of_fmap. simpl.
    apply Hin in Hwc.
    assert (wc.1 ∈ map fst counts) as Hkey by by apply list_elem_of_fmap_2.
    apply Hkeys in Hkey as [Hw Hstop].
    rewrite Forall_forall in Hwords. rewrite Forall_forall in Hpos.
    destruct (Hwords _ Hw) as (Hl & Hn & _). specialize (Hpos _ Hwc). auto.
  - rewrite map_map. simpl.
    assert (sum_list (map snd (take 20 (JsArray.sort SeoRoutes.by_count_desc counts)))
            <= sum_list (map snd counts)) as Hle.
    { change (sum_list (snd <$> take 20 (JsArray.sort SeoRoutes.by_count_desc counts))
              <= sum_list (snd <$> counts)).
      rewrite fmap_take.
      etrans; [apply sum_take_le|].
      by rewrite (sort_Permutation SeoRoutes.by_count_desc counts). }
    eapply Nat.le_trans; [exact Hle|]. rewrite Hsum. apply length_filter_le.
Qed.

Lemma keywords_route_entries_witness :
  exists body,
    SeoRoutes.keywords_route (Some "the cat and the hat; a cat sat") (Some "Cats")
      = SeoRoutes.KeywordsOk body
    /\ SeoRoutes.totalWords body = 8
    /\ sum_list (map SeoRoutes.kw_count (SeoRoutes.keywords body)) <= 8.
Proof.
  destruct (SeoRoutes.keywords_route (Some "the cat and the hat; a cat sat") (Some "Cats"))
    as [body| |] eqn:Hrun.
  2,3: vm_compute in Hrun; discriminate Hrun.
  exists body. split; [reflexivity|].
  destruct (keywords_route_entries _ _ _ Hrun) as (_ & Hsum).
  assert (Ht : SeoRoutes.totalWords body = 8).
  { vm_compute in Hrun. injection Hrun as <-. reflexivity. }
  split; [exact Ht|]. rewrite <- Ht. exact Hsum.
Defined.

(** ** The component and the server on the same content *)

Section client_words.
Import SEOAnalyzerView.

Lemma wordStarts_le s : wordStarts false s <= wordStarts true s.
Proof. destruct s as [|c r]; simpl; [done|]. destruct (is_space c); lia. Qed.

Lemma rev_app_nonempty s t : is_empty t = false -> is_empty (String.rev_app s t) = false.
Proof. revert t. induction s as [|c s IH]; intros t Ht; simpl; [done|]. by apply IH. Qed.

Lemma rev_nonempty c cur : is_empty (String.rev (String c cur)) = false.
Proof. unfold String.rev. simpl. by apply rev_app_nonempty. Qed.

(** The pieces of a split that are not empty are the words that start in
    the text, and the piece being read when it has a character. *)
Lemma split_spaces_go_words cur in_run s :
  (in_run = true -> cur = "") ->
  length (List.filter (fun w => negb (is_empty w)) (split_spaces_go cur in_run s))
  = wordStarts (is_empty cur) s + (if is_empty cur then 0 else 1).
Proof.
  revert cur in_run. induction s as [|c r IH]; intros cur in_run Hrun.
  - cbn [split_spaces_go wordStarts List.filter].
    destruct cur as [|d cur]; [done|]. by rewrite rev_nonempty.
  - cbn [split_spaces_go wordStarts]. destruct (is_space c).
    + destruct in_run.
      * rewrite (Hrun eq_refl). by rewrite IH.
      * cbn [List.filter]. destruct cur as [|d cur].
        -- cbn [String.rev String.rev_app is_empty negb]. by rewrite IH.
        -- rewrite rev_nonempty. cbn [negb length]. rewrite IH by done.
           cbn [is_empty]. lia.
    + rewrite IH by done. cbn [is_empty]. destruct (is_empty cur); lia.
Qed.

(** Taking the tags out of a text starts no new word. *)
Lemma strip_tags_go_words in_tag s b b' :
  wordStarts b (strip_tags_go in_tag s)
  <= wordStarts b' s + (if b && negb b' then 1 else 0).
Proof.
  revert in_tag b b'. induction s as [|c r IH]; intros in_tag b b'; [simpl; lia|].
  assert (Hdrop : forall t, wordStarts b (strip_tags_go t r)
                            <= wordStarts b' (String c r) + (if b && negb b' then 1 else 0)).
  { intros t. simpl. destruct (is_space c).
    - specialize (IH t b true). destruct b, b'; simpl in *; lia.
    - specialize (IH t b false). destruct b, b'; simpl in *; lia. }
  cbn [strip_tags_go]. destruct in_tag.
  - destruct (Ascii.eqb c ">"); apply Hdrop.
  - destruct (Ascii.eqb c "<" && has_gt r); [apply Hdrop|].
    simpl. destruct (is_space c).
    + specialize (IH false true true). destruct b, b'; simpl in *; lia.
    + specialize (IH false false false). destruct b, b'; simpl in *; lia.
Qed.

End client_words.

(** X19.  The component never counts more words than the server does for the
    same content: the server's count has every piece of the split, with
    the tags and the empty pieces, and the component's has only the words
    that are left when the tags are gone. *)
Theorem client_wordCount_le_server title content meta slug img tags :
  SEOAnalyzer.wordCount (SEOAnalyzer.analyzeSEO title content meta slug img tags)
  <= Seo.wordCount content.
Proof.
  rewrite analyzeSEO_unfold. cbv zeta. simpl SEOAnalyzer.wordCount.
  unfold SEOAnalyzer.words, Seo.wordCount, split_spaces.
  rewrite split_spaces_go_words by done. simpl.
  etrans; [|apply (length_filter_le (fun w => negb (is_empty w)))].
  rewrite split_spaces_go_words by done. simpl.
  pose proof (strip_tags_go_words false content true true). simpl in *.
  unfold strip_tags. lia.
Qed.

(** ** The score of the component *)

Section client_range.
Import SEOAnalyzer SEOAnalyzerView.

Local Ltac grade :=
  repeat match goal with
         | |- context [if ?b then _ else _] => destruct b
         end;
  unfold graded; simpl; intuition (try lia; try discriminate).

Lemma titleChecks_graded title : graded 0 (titleChecks title).
Proof. unfold titleChecks. grade. Qed.

Lemma metaChecks_graded meta : graded 0 (metaChecks meta).
Proof. unfold metaChecks. grade. Qed.

Lemma contentChecks_graded n : graded 5 (contentChecks n).
Proof. unfold contentChecks. grade. Qed.

Lemma slugChecks_graded slug : graded 0 (slugChecks slug).
Proof. unfold slugChecks. grade. Qed.

Lemma imageCheck_graded img : graded 5 (imageCheck img).
Proof. unfold imageCheck. grade. Qed.

Lemma tagsCheck_graded tags : graded 5 (tagsCheck tags).
Proof. unfold tagsCheck. grade. Qed.

Lemma headingsCheck_graded content : graded 5 (headingsCheck content).
Proof. unfold headingsCheck. grade. Qed.

Lemma round_percent_ge total : 20 <= total -> 29 <= round_percent total 70.
Proof. intros H. unfold round_percent. apply Nat.div_le_lower_bound; lia. Qed.

Lemma round_percent_full total : total <= 70 -> round_percent total 70 = 100 <-> total = 70.
Proof.
  intros H. split; [|by intros ->].
  intros Hfull. destruct (decide (total = 70)) as [|Hne]; [done|].
  assert (round_percent total 70 < 100); [|lia].
  unfold round_percent. apply Nat.Div0.div_lt_upper_bound. lia.
Qed.

End client_range.

(** X20.  Every run of the component files exactly seven checks.  Its score is
    never below 29 nor above 100, and it is 100 exactly when all seven
    checks are successes; a check is a success exactly when it has ten
    points, and an error exactly when it has none. *)
Theorem SEOAnalyzer_score_range title content meta slug img tags :
  let r := SEOAnalyzer.analyzeSEO title content meta slug img tags in
  length (SEOAnalyzer.checks r) = 7
  /\ 29 <= SEOAnalyzer.seoScore r <= 100
  /\ (SEOAnalyzer.seoScore r = 100
      <-> Forall (fun c => SEOAnalyzer.check_status c = SEOAnalyzer.Success)
            (SEOAnalyzer.checks r))
  /\ Forall (fun c =>
               (SEOAnalyzer.check_status c = SEOAnalyzer.Success
                <-> SEOAnalyzer.check_score c = 10)
               /\ (SEOAnalyzer.check_status c = SEOAnalyzer.Error
                   <-> SEOAnalyzer.check_score c = 0))
       (SEOAnalyzer.checks r).
Proof.
  intros r. subst r. rewrite analyzeSEO_unfold. cbv zeta.
  simpl SEOAnalyzer.seoScore. simpl SEOAnalyzer.checks.
  destruct (titleChecks_graded title) as (Ht & Hts & Hte).
  destruct (metaChecks_graded meta) as (Hm & Hms & Hme).
  destruct (contentChecks_graded (length (SEOAnalyzer.words content))) as (Hc & Hcs & Hce).
  destruct (slugChecks_graded slug) as (Hs & Hss & Hse).
  destruct (imageCheck_graded img) as (Hi & His & Hie).
  destruct (tagsCheck_graded tags) as (Hg & Hgs & Hge).
  destruct (headingsCheck_graded content) as (Hh & Hhs & Hhe).
  split; [reflexivity|]. split; [|split].
  - split; [apply round_percent_ge; lia|apply round_percent_le; lia].
  - rewrite round_percent_full by lia. rewrite !Forall_cons, Forall_nil.
    rewrite Hts, Hms, Hcs, Hss, His, Hgs, Hhs. lia.
  - rewrite !Forall_cons, Forall_nil. tauto.
Qed.

(** X21.  The colour and the label that the component shows for a score never
    disagree: green goes with Excellent, yellow with Good, and red with
    the two labels below. *)
Theorem score_colour_matches_label score :
  (SEOAnalyzerView.getScoreColor score = SEOAnalyzerView.Green
   <-> SEOAnalyzerView.getScoreStatus score = SEOAnalyzerView.Excellent)
  /\ (SEOAnalyzerView.getScoreColor score = SEOAnalyzerView.Yellow
      <-> SEOAnalyzerView.getScoreStatus score = SEOAnalyzerView.Good)
  /\ (SEOAnalyzerView.getScoreColor score = SEOAnalyzerView.Red
      <-> SEOAnalyzerView.getScoreStatus score = SEOAnalyzerView.NeedsImprovement
          \/ SEOAnalyzerView.getScoreStatus score = SEOAnalyzerView.Poor).
Proof.
  unfold SEOAnalyzerView.getScoreColor, SEOAnalyzerView.getScoreStatus.
  destruct (80 <=? score)%nat; [intuition congruence|].
  destruct (60 <=? score)%nat; [intuition congruence|].
  destruct (40 <=? score)%nat; intuition congruence.
Qed.
